(** * pylops basic operators: [MatrixMult] and [Transpose]

    A shallow embedding of [pylops/basicoperators/Transpose.py] and
    [pylops/basicoperators/MatrixMult.py], together with the NumPy
    primitives the two classes call, and the properties of the two
    operators.

    Conventions of the embedding.
    - Python exceptions are values of [exn]; a call that may raise returns
      a [result].  [OutsideModel] marks the one input region that is left
      out: extra extents of [MatrixMult] from [2^63] up that NumPy wraps
      into negative cells.
    - An n-dimensional array is a flat buffer with a shape and strides
      (counted in elements), as NumPy stores it: [reshape] of a flat buffer
      gives a C-contiguous array, [transpose] gives a view with permuted
      shape and strides, and [ravel] reads the view in row-major order.
    - Extents and (normalised) axis numbers are natural numbers; the axis
      numbers a caller passes are Python integers ([Z]) and may be negative.
      Values NumPy keeps in an [int] array live in 64-bit cells: storing an
      extent that does not fit raises, and [np.prod] wraps around.
    - Floating-point arithmetic is replaced by exact arithmetic in a
      commutative ring with a conjugation. *)

From Stdlib Require Import String.
From Stdlib Require Import List ZArith Lia Arith Bool Permutation Sorted.
From Stdlib Require Import Ring Ring_theory.
Import ListNotations.
Local Open Scope string_scope.
Local Open Scope nat_scope.
Local Open Scope list_scope.

Set Implicit Arguments.

(* ================================================================== *)
(** * Exceptions and results *)

Inductive exn : Type :=
| AxisError      (* numpy.AxisError: its own class, derived from both
                    ValueError and IndexError *)
| ValueError (msg : string)
| IndexError
| OverflowError
| AttributeError
| OutsideModel   (* no Python exception: the call leaves the part of the
                    program's behaviour that this development describes *)
.

Inductive result (A : Type) : Type :=
| Ok (a : A)
| Raise (e : exn).

Arguments Ok {A} a.
Arguments Raise {A} e.

Definition bind {A B : Type} (r : result A) (k : A -> result B) : result B :=
  match r with
  | Ok a => k a
  | Raise e => Raise e
  end.

Notation "x <- r ;; k" := (bind r (fun x => k))
  (at level 61, r at next level, right associativity).

(** [[f(a) for a in l]]: the elements are evaluated left to right and the
    first exception ends the comprehension. *)
Fixpoint mapM {A B : Type} (f : A -> result B) (l : list A) : result (list B) :=
  match l with
  | [] => Ok []
  | a :: l' => b <- f a ;; bs <- mapM f l' ;; Ok (b :: bs)
  end.

(** [g(x[i], y[i])] for every [i]: the elementwise operations of arrays of
    one shape ([x + y], [x * y], ...). *)
Definition zip_with {A B C : Type} (g : A -> B -> C) (x : list A)
    (y : list B) : list C :=
  map (fun p => g (fst p) (snd p)) (combine x y).

(* ================================================================== *)
(** * NumPy primitives *)

Module Numpy.

(** ** Integer arrays *)

Definition int64_max : Z := 2 ^ 63 - 1.

(** Two's-complement wrap-around of a 64-bit signed cell. *)
Definition wrap64 (z : Z) : Z := (z + 2 ^ 63) mod 2 ^ 64 - 2 ^ 63.

(** Mathematical product of the extents of a shape. *)
Definition prod (l : list nat) : nat := fold_right Nat.mul 1 l.

(** [np.prod] of a tuple of integers: [multiply.reduce] over an [int64]
    array, left to right from 1, each product wrapped to 64 bits. *)
Definition np_prod (l : list nat) : Z :=
  fold_left (fun acc d => wrap64 (acc * Z.of_nat d)) l 1%Z.

(** [np.zeros(n, dtype=int)] and [np.arange(n, dtype=int)]. *)
Definition np_zeros (n : nat) : list nat := repeat 0 n.
Definition np_arange (n : nat) : list nat := seq 0 n.

(** Conversion of a tuple of Python integers to the cells of an [int]
    array: an integer above the 64-bit range raises [OverflowError]. *)
Definition as_int_array (l : list nat) : result (list nat) :=
  if forallb (fun d => (Z.of_nat d <=? int64_max)%Z) l then Ok l
  else Raise OverflowError.

(** [np.array(a, dtype=int)] for the array [a] that [np.array] has built
    from a list of non-negative Python integers.  Integers that fit the
    64-bit cells are kept.  An integer from [2^64] up makes [a] an array
    of Python objects, whose conversion raises [OverflowError].  In what
    is left (some integer from [2^63] up, none from [2^64]) [a] is an
    unsigned or floating array, and the conversion wraps or rounds it
    into negative cells: arrays of negative extents are not described
    here. *)
Definition np_array_int (l : list nat) : result (list nat) :=
  if forallb (fun d => (Z.of_nat d <=? int64_max)%Z) l then Ok l
  else if existsb (fun d => (2 ^ 64 <=? Z.of_nat d)%Z) l then
    Raise OverflowError
  else Raise OutsideModel.

(** [normalize_axis_index(axis, ndim)]: an axis in [[-ndim, ndim)] is
    mapped to [[0, ndim)], any other raises [AxisError]. *)
Definition normalize_axis_index (axis : Z) (ndim : nat) : result nat :=
  if ((- Z.of_nat ndim <=? axis) && (axis <? Z.of_nat ndim))%Z then
    if (axis <? 0)%Z then Ok (Z.to_nat (axis + Z.of_nat ndim))
    else Ok (Z.to_nat axis)
  else Raise AxisError.

(** [np.unique]: the sorted distinct elements. *)
Fixpoint insert_unique (a : nat) (l : list nat) : list nat :=
  match l with
  | [] => [a]
  | b :: l' =>
      if a <? b then a :: l
      else if a =? b then l
      else b :: insert_unique a l'
  end.

Definition np_unique (l : list nat) : list nat :=
  fold_right insert_unique [] l.

(** In-place update of one cell; nothing is written out of range (the
    callers below check the range first, as NumPy does). *)
Fixpoint set_nth {A : Type} (i : nat) (v : A) (l : list A) : list A :=
  match l, i with
  | [], _ => []
  | _ :: l', O => v :: l'
  | a :: l', S i' => a :: set_nth i' v l'
  end.

(** [a[idx] = vals] with a list (or array) of indices: [vals] is broadcast
    to the shape of [idx] (same length, or length one), otherwise NumPy
    raises a shape-mismatch [ValueError]; the cells are then written in
    order, so that the last write to a repeated index wins.  An index out
    of range raises [IndexError] (in this program every index has been
    normalised to the range before). *)
Definition np_setitem (a idx vals : list nat) : result (list nat) :=
  if existsb (fun i => length a <=? i) idx then Raise IndexError
  else if length vals =? length idx then
    Ok (fold_left (fun acc iv => set_nth (fst iv) (snd iv) acc)
                  (combine idx vals) a)
  else if length vals =? 1 then
    Ok (fold_left (fun acc i => set_nth i (hd 0 vals) acc) idx a)
  else Raise (ValueError "shape mismatch: value array could not be broadcast to indexing result").

(** ** n-dimensional arrays *)

Record ndarray (A : Type) : Type := mk_ndarray {
  data : list A;
  shape : list nat;
  strides : list nat
}.

(** Row-major (C order) strides of a shape, in elements. *)
Fixpoint c_strides (shape : list nat) : list nat :=
  match shape with
  | [] => []
  | _ :: s => prod s :: c_strides s
  end.

(** [x.reshape(newshape)] for a flat buffer [x] and a shape without
    placeholder: the sizes must agree. *)
Definition np_reshape {A : Type} (x : list A) (newshape : list nat)
  : result (ndarray A) :=
  if length x =? prod newshape then
    Ok {| data := x; shape := newshape; strides := c_strides newshape |}
  else Raise (ValueError "cannot reshape array").

(** [x.reshape(newshape)] for a shape held in 64-bit cells: NumPy takes a
    negative entry as the one extent to infer from the size of [x]. *)
Definition np_reshape_int {A : Type} (x : list A) (newshape : list Z)
  : result (ndarray A) :=
  let known :=
    prod (map Z.to_nat (filter (fun d => (0 <=? d)%Z) newshape)) in
  match filter (fun d => (d <? 0)%Z) newshape with
  | [] => np_reshape x (map Z.to_nat newshape)
  | [_] =>
      if (known =? 0) || negb (length x mod known =? 0) then
        Raise (ValueError "cannot reshape array")
      else
        np_reshape x
          (map (fun d => if (d <? 0)%Z then length x / known else Z.to_nat d)
               newshape)
  | _ => Raise (ValueError "can only specify one unknown dimension")
  end.

(** [l[p[0]], l[p[1]], ...]. *)
Definition gather (l p : list nat) : list nat :=
  map (fun i => nth i l 0) p.

(** The checks of [ndarray.transpose(axes)], one axis after the other: an
    axis out of bounds raises [AxisError], an axis met before raises
    [ValueError]. *)
Fixpoint check_axes (ndim : nat) (seen axes : list nat) : result unit :=
  match axes with
  | [] => Ok tt
  | a :: rest =>
      if ndim <=? a then Raise AxisError
      else if existsb (Nat.eqb a) seen then
        Raise (ValueError "repeated axis in transpose")
      else check_axes ndim (a :: seen) rest
  end.

(** [a.transpose(axes)]: a view on the same buffer whose [j]-th axis is
    axis [axes[j]] of [a]. *)
Definition np_transpose {A : Type} (a : ndarray A) (axes : list nat)
  : result (ndarray A) :=
  if negb (length axes =? length (shape a)) then
    Raise (ValueError "axes don't match array")
  else
    _ <- check_axes (length (shape a)) [] axes ;;
    Ok {| data := data a;
          shape := gather (shape a) axes;
          strides := gather (strides a) axes |}.

(** Buffer offsets of the elements of a strided view, in row-major order of
    its shape: one nested loop per axis. *)
Fixpoint ravel_offsets (shape strides : list nat) (base : nat) : list nat :=
  match shape with
  | [] => [base]
  | d :: shape' =>
      flat_map
        (fun i => ravel_offsets shape' (tl strides) (base + i * hd 0 strides))
        (seq 0 d)
  end.

(** [a.ravel()]. [dflt] is only read if an offset leaves the buffer, which
    no array built by [np_reshape] and [np_transpose] does. *)
Definition np_ravel {A : Type} (dflt : A) (a : ndarray A) : list A :=
  map (fun o => nth o (data a) dflt) (ravel_offsets (shape a) (strides a) 0).

(** ** Multi-indices

    The position of a multi-index in a buffer, [np.ravel_multi_index] and
    [np.unravel_index] for row-major order.  They are not called by the
    operators; the properties of [np_ravel] are stated with them. *)

Fixpoint offset (idx strides : list nat) : nat :=
  match idx, strides with
  | i :: idx', s :: strides' => i * s + offset idx' strides'
  | _, _ => 0
  end.

Definition ravel_multi_index (shape idx : list nat) : nat :=
  offset idx (c_strides shape).

Fixpoint unravel_index (shape : list nat) (k : nat) : list nat :=
  match shape with
  | [] => []
  | _ :: s => k / prod s :: unravel_index s (k mod prod s)
  end.

(** An extent that fits a 64-bit cell. *)
Definition fits_int64 (d : nat) : Prop := (Z.of_nat d <= int64_max)%Z.

(** [idx] is a valid multi-index of an array of shape [shape]. *)
Definition in_bounds (idx shape : list nat) : Prop := Forall2 lt idx shape.

(** [p] is a permutation of [range(n)]. *)
Definition is_perm (n : nat) (p : list nat) : Prop := Permutation p (seq 0 n).

(** [q] is the inverse of [p]: [q[p[j]] = j]. *)
Definition inverse_of (n : nat) (p q : list nat) : Prop :=
  length q = n /\ forall j, j < n -> nth (nth j p 0) q 0 = j.

End Numpy.

(* ================================================================== *)
(** * pylops.utils._internal *)

(** A dimension argument is a single number or a sequence of numbers. *)
Inductive value_or_list_like : Type :=
| Value (n : nat)
| ListLike (l : list nat).

(** Modelled from the spec: [pylops/utils/_internal.py] is not part of the
    sources at hand.  The specification describes its helpers as converting
    a scalar-or-sequence argument into canonical tuple/array form: a
    sequence is kept, a scalar becomes a one-element sequence. *)
Definition _value_or_list_like_to_tuple (v : value_or_list_like) : list nat :=
  match v with
  | Value n => [n]
  | ListLike l => l
  end.

(** Modelled from the spec: same helper, array form. *)
Definition _value_or_list_like_to_array (v : value_or_list_like) : list nat :=
  match v with
  | Value n => [n]
  | ListLike l => l
  end.

(** [np.dtype(...)] values met in the two classes. *)
Inductive np_dtype : Type :=
| float32 | float64 | complex64 | complex128 | int32 | int64.

(* ================================================================== *)
(** * Transpose *)

Module Transpose.
Import Numpy.

Record t : Type := mk {
  dims : list nat;
  axes : list nat;
  axesd : list nat;
  dimsd : list nat;
  shape : Z * Z;
  dtype : np_dtype;
  explicit : bool;
  clinear : bool;
  name : string
}.

(** [Transpose.__init__(self, dims, axes, dtype, name)]. *)
Definition __init__ (dims0 : value_or_list_like) (axes0 : list Z)
    (dtype0 : np_dtype) (name0 : string) : result t :=
  let dims := _value_or_list_like_to_tuple dims0 in
  let ndims := length dims in
  axes <- mapM (fun ax => normalize_axis_index ax ndims) axes0 ;;
  if negb (length (np_unique axes) =? ndims) then
    Raise (ValueError "axes must contain each direction once")
  else
    axesd <- np_setitem (np_zeros ndims) axes (np_arange ndims) ;;
    vals <- as_int_array dims ;;
    dimsd <- np_setitem (np_zeros ndims) axesd vals ;;
    Ok {| dims := dims;
          axes := axes;
          axesd := axesd;
          dimsd := dimsd;
          shape := (np_prod dimsd, np_prod dims);
          dtype := dtype0;
          explicit := false;
          clinear := true;
          name := name0 |}.

Section Apply.
Context {A : Type} (dflt : A).

(** [Transpose._matvec(self, x)]. *)
Definition _matvec (op : t) (x : list A) : result (list A) :=
  y <- np_reshape x (dims op) ;;
  y <- np_transpose y (axes op) ;;
  Ok (np_ravel dflt y).

(** [Transpose._rmatvec(self, x)]. *)
Definition _rmatvec (op : t) (x : list A) : result (list A) :=
  y <- np_reshape x (dimsd op) ;;
  y <- np_transpose y (axesd op) ;;
  Ok (np_ravel dflt y).
End Apply.

(** The operator built for [dims = (2, 3, 4)] and [axes = (1, -1, 0)]. *)
Definition op_234 : t :=
  {| dims := [2; 3; 4]; axes := [1; 2; 0]; axesd := [2; 0; 1];
     dimsd := [3; 4; 2]; shape := (24, 24)%Z; dtype := float64;
     explicit := false; clinear := true; name := "T" |}.

(** The test [transpose] makes on [self.axes] for an array of shape
    [self.dims]; it does not look at the elements. *)
Definition check_axes_of (op : t) : result unit :=
  if negb (length (axes op) =? length (dims op)) then
    Raise (ValueError "axes don't match array")
  else check_axes (length (dims op)) [] (axes op).

(** The operator with the roles of model and data exchanged; it is what
    [Transpose(op.dimsd, op.axesd)] builds. *)
Definition adjoint_op (op : t) : t :=
  {| dims := dimsd op; axes := axesd op; axesd := axes op; dimsd := dims op;
     shape := (snd (shape op), fst (shape op)); dtype := dtype op;
     explicit := explicit op; clinear := clinear op; name := name op |}.

(** The relations [__init__] establishes between the attributes when the
    normalised axes are a permutation. *)
Record wf (op : t) : Prop := {
  wf_perm : is_perm (length (dims op)) (axes op);
  wf_inv : inverse_of (length (dims op)) (axes op) (axesd op);
  wf_dimsd : dimsd op = gather (dims op) (axes op)
}.

End Transpose.

(* ================================================================== *)
(** * Scalars in exact arithmetic *)

(** The element type of the arrays of [MatrixMult]: a commutative ring
    with a conjugation.  Real numbers carry the identity as conjugation. *)
Class Scalar (K : Type) : Type := {
  s0 : K;
  s1 : K;
  sadd : K -> K -> K;
  smul : K -> K -> K;
  ssub : K -> K -> K;
  sopp : K -> K;
  sconj : K -> K
}.

Class ScalarLaws (K : Type) `{Scalar K} : Prop := {
  scalar_ring : ring_theory s0 s1 sadd smul ssub sopp (@eq K);
  sconj_add : forall a b, sconj (sadd a b) = sadd (sconj a) (sconj b);
  sconj_mul : forall a b, sconj (smul a b) = smul (sconj a) (sconj b);
  sconj_invol : forall a, sconj (sconj a) = a
}.

(** Integers, as real numbers. *)
#[export] Instance Z_Scalar : Scalar Z :=
  {| s0 := 0%Z; s1 := 1%Z; sadd := Z.add; smul := Z.mul; ssub := Z.sub;
     sopp := Z.opp; sconj := fun a => a |}.

(** Gaussian integers [re + im * i], as complex numbers. *)
Definition GaussZ : Type := (Z * Z)%type.

#[export] Instance GaussZ_Scalar : Scalar GaussZ :=
  {| s0 := (0, 0)%Z;
     s1 := (1, 0)%Z;
     sadd := fun a b => (fst a + fst b, snd a + snd b)%Z;
     smul := fun a b => (fst a * fst b - snd a * snd b,
                         fst a * snd b + snd a * fst b)%Z;
     ssub := fun a b => (fst a - fst b, snd a - snd b)%Z;
     sopp := fun a => (- fst a, - snd a)%Z;
     sconj := fun a => (fst a, - snd a)%Z |}.

(* ================================================================== *)
(** * MatrixMult *)

Module MatrixMult.
Import Numpy.

Definition iscomplex_dtype (dt : np_dtype) : bool :=
  match dt with
  | complex64 | complex128 => true
  | _ => false
  end.

Definition dtype_name (dt : np_dtype) : string :=
  match dt with
  | float32 => "float32" | float64 => "float64"
  | complex64 => "complex64" | complex128 => "complex128"
  | int32 => "int32" | int64 => "int64"
  end.

(** The storage formats of [scipy.sparse]. *)
Inductive sparse_format : Type := CSR | CSC | COO | BSR | DIA | LIL | DOK.

(** The format of [A.T]: the transpose of a CSR matrix is a CSC matrix on
    the same buffers and conversely; the other formats are kept. *)
Definition transpose_format (fmt : sparse_format) : sparse_format :=
  match fmt with
  | CSR => CSC
  | CSC => CSR
  | f => f
  end.

(** [np.iscomplexobj(A.data)] for a sparse matrix of format [fmt] and
    element type [dt].  The [data] attribute of a CSR, CSC, COO, BSR or
    DIA matrix is the array of its stored elements.  That of a LIL matrix
    is an array of Python lists, of dtype [object], which is not a
    complex type whatever the lists hold.  A DOK matrix has no [data]
    attribute. *)
Definition sparse_data_iscomplex (fmt : sparse_format) (dt : np_dtype)
  : result bool :=
  match fmt with
  | CSR | CSC | COO | BSR | DIA => Ok (iscomplex_dtype dt)
  | LIL => Ok false
  | DOK => Raise AttributeError
  end.

Section WithScalar.
Context {K : Type} `{Scalar K}.

(** [sum(f(k) for k in range(n))]. *)
Definition sum_n (n : nat) (f : nat -> K) : K :=
  fold_right sadd s0 (map f (seq 0 n)).

(** A two-dimensional [numpy.ndarray]: a buffer read through two
    strides. *)
Record array2 : Type := mk_array2 {
  a_shape : nat * nat;
  a_strides : nat * nat;
  a_data : list K
}.

(** The matrix an operator wraps: a dense array or a [scipy.sparse]
    matrix, kept as its format, its shape and the list of its stored
    entries [(row, column, value)]; entries stored twice at one position
    add up. *)
Inductive matrix : Type :=
| Dense (dt : np_dtype) (a : array2)
| Sparse (fmt : sparse_format) (dt : np_dtype) (nrows ncols : nat)
         (coo : list (nat * nat * K)).

(** [A.dtype], [A.shape], [A[i, k]] and [A.T]. *)
Definition mdtype (A : matrix) : np_dtype :=
  match A with Dense dt _ => dt | Sparse _ dt _ _ _ => dt end.

Definition mshape (A : matrix) : nat * nat :=
  match A with
  | Dense _ a => a_shape a
  | Sparse _ _ r c _ => (r, c)
  end.

Definition entry (A : matrix) (i k : nat) : K :=
  match A with
  | Dense _ a =>
      nth (i * fst (a_strides a) + k * snd (a_strides a)) (a_data a) s0
  | Sparse _ _ _ _ coo =>
      fold_right
        (fun e acc =>
           if (fst (fst e) =? i) && (snd (fst e) =? k) then sadd (snd e) acc
           else acc)
        s0 coo
  end.

Definition T (A : matrix) : matrix :=
  match A with
  | Dense dt a =>
      Dense dt {| a_shape := (snd (a_shape a), fst (a_shape a));
                  a_strides := (snd (a_strides a), fst (a_strides a));
                  a_data := a_data a |}
  | Sparse fmt dt r c coo =>
      Sparse (transpose_format fmt) dt c r
             (map (fun e => (snd (fst e), fst (fst e), snd e)) coo)
  end.

(** [np.iscomplexobj(A)] looks at the element type, not at the values. *)
Definition iscomplexobj (A : matrix) : bool := iscomplex_dtype (mdtype A).

(** The [ValueError] of a product whose operands do not fit. *)
Definition mismatch (A : matrix) : exn :=
  match A with
  | Dense _ _ => ValueError "shapes not aligned"
  | Sparse _ _ _ _ _ => ValueError "dimension mismatch"
  end.

(** Element [[i, j]] of a two-dimensional view. *)
Definition get2 (X : ndarray K) (i j : nat) : K :=
  nth (offset [i; j] (strides X)) (data X) s0.

(** [A.dot(x)] for a one-dimensional [x]. *)
Definition dot_vec (A : matrix) (x : list K) : result (list K) :=
  let (r, c) := mshape A in
  if length x =? c then
    Ok (map (fun i => sum_n c (fun k => smul (entry A i k) (nth k x s0)))
            (seq 0 r))
  else Raise (mismatch A).

(** [A.dot(X)] for a two-dimensional [X]: a new C-contiguous array. *)
Definition dot_mat (A : matrix) (X : ndarray K) : result (ndarray K) :=
  let (r, c) := mshape A in
  match Numpy.shape X with
  | [c'; p] =>
      if c' =? c then
        Ok {| data :=
                flat_map
                  (fun i =>
                     map (fun j =>
                            sum_n c (fun k => smul (entry A i k) (get2 X k j)))
                         (seq 0 p))
                  (seq 0 r);
              Numpy.shape := [r; p];
              strides := c_strides [r; p] |}
      else Raise (mismatch A)
  | _ => Raise (mismatch A)
  end.

(** [x.conj()]. *)
Definition conj (x : list K) : list K := map sconj x.

Definition nd_conj (X : ndarray K) : ndarray K :=
  {| data := conj (data X); Numpy.shape := Numpy.shape X;
     strides := strides X |}.

(** [np.dot(a, b)] and [np.vdot(a, b)] of two vectors; [vdot] conjugates
    its first argument and is the inner product of complex vectors. *)
Definition np_dot (a b : list K) : result K :=
  if length a =? length b then
    Ok (sum_n (length a) (fun i => smul (nth i a s0) (nth i b s0)))
  else Raise (ValueError "shapes not aligned").

Definition np_vdot (a b : list K) : result K :=
  if length a =? length b then
    Ok (sum_n (length a) (fun i => smul (sconj (nth i a s0)) (nth i b s0)))
  else Raise (ValueError "cannot reshape array").

Record t : Type := mk {
  A : matrix;
  complex : bool;
  dims : value_or_list_like;
  dimsd : value_or_list_like;
  otherdims : option (list nat);
  dimsflatten : option (list Z);
  dimsdflatten : option (list Z);
  reshape : bool;
  shape : Z * Z;
  explicit : bool;
  dtype : np_dtype
}.

(** Lines 50 to 53: [np.iscomplexobj(A)] for an array, and
    [np.iscomplexobj(A.data)] for anything else. *)
Definition complex_flag (A0 : matrix) : result bool :=
  match A0 with
  | Dense _ _ => Ok (iscomplexobj A0)
  | Sparse fmt dt _ _ _ => sparse_data_iscomplex fmt dt
  end.

(** [MatrixMult.__init__(self, A, otherdims, dtype)]; the second
    component of the result is what was sent to [logging.warning]. *)
Definition __init__ (A0 : matrix) (otherdims0 : option value_or_list_like)
    (dtype0 : np_dtype) : result (t * list string) :=
  complex_ <- complex_flag A0 ;;
  let (rows, cols) := mshape A0 in
  let upcast := iscomplexobj A0 && negb (iscomplex_dtype dtype0) in
  let dtype_ := if upcast then mdtype A0 else dtype0 in
  let log :=
    if upcast then
      [String.append "Matrix A is a complex object, dtype cast to "
                     (dtype_name dtype_)]
    else [] in
  match otherdims0 with
  | None =>
      Ok ({| A := A0; complex := complex_;
             dims := Value cols; dimsd := Value rows;
             otherdims := None; dimsflatten := None; dimsdflatten := None;
             reshape := false;
             shape := (Z.of_nat rows, Z.of_nat cols);
             explicit := true;
             dtype := dtype_ |}, log)
  | Some od0 =>
      od <- np_array_int (_value_or_list_like_to_array od0) ;;
      let dims_ := cols :: od in
      let dimsd_ := rows :: od in
      Ok ({| A := A0; complex := complex_;
             dims := ListLike dims_; dimsd := ListLike dimsd_;
             otherdims := Some od;
             dimsflatten := Some [Z.of_nat cols; np_prod od];
             dimsdflatten := Some [Z.of_nat rows; np_prod od];
             reshape := true;
             shape := (np_prod dimsd_, np_prod dims_);
             explicit := false;
             dtype := dtype_ |}, log)
  end.

(** Reading an attribute that [__init__] only sets with [otherdims]. *)
Definition attr {B : Type} (a : option B) : result B :=
  match a with
  | Some b => Ok b
  | None => Raise AttributeError
  end.

(** [MatrixMult._matvec(self, x)].  The two tests of [self.reshape], before
    and after the product, are one branch here: nothing changes the flag
    in between. *)
Definition _matvec (op : t) (x : list K) : result (list K) :=
  if reshape op then
    shp <- attr (dimsflatten op) ;;
    X <- np_reshape_int x shp ;;
    Y <- dot_mat (A op) X ;;
    Ok (np_ravel s0 Y)
  else dot_vec (A op) x.

(** [MatrixMult._rmatvec(self, x)], with the same merge of the two tests
    of [self.reshape]. *)
Definition _rmatvec (op : t) (x : list K) : result (list K) :=
  if reshape op then
    shp <- attr (dimsdflatten op) ;;
    X <- np_reshape_int x shp ;;
    Y <- (if complex op then
            Y <- dot_mat (T (A op)) (nd_conj X) ;; Ok (nd_conj Y)
          else dot_mat (T (A op)) X) ;;
    Ok (np_ravel s0 Y)
  else
    if complex op then
      y <- dot_vec (T (A op)) (conj x) ;; Ok (conj y)
    else dot_vec (T (A op)) x.

(** The extra trailing axes of the operator, none without [otherdims]. *)
Definition trailing (op : t) : list nat :=
  match otherdims op with
  | Some od => od
  | None => []
  end.

(** [np.prod(dims)] of an attribute that is a number or a tuple, as a
    mathematical product. *)
Definition size_of (v : value_or_list_like) : nat :=
  prod (_value_or_list_like_to_tuple v).

(** [A.conj()]. *)
Definition mconj (M : matrix) : matrix :=
  match M with
  | Dense dt a =>
      Dense dt {| a_shape := a_shape a; a_strides := a_strides a;
                  a_data := conj (a_data a) |}
  | Sparse fmt dt r c coo =>
      Sparse fmt dt r c (map (fun e => (fst e, sconj (snd e))) coo)
  end.

(** Following the specification: [A @ X] for the array [X] of shape
    [(cols(A), *od)] held row-major in the flat buffer [x], the matrix
    being applied along the first axis, independently for every index of
    the trailing axes; the result, of shape [(rows(A), *od)], is
    flattened. *)
Definition matmul_trailing (M : matrix) (od : list nat) (x : list K)
  : list K :=
  let (r, c) := mshape M in
  map (fun o =>
         let idx := unravel_index (r :: od) o in
         sum_n c (fun k =>
                    smul (entry M (hd 0 idx) k)
                         (nth (ravel_multi_index (c :: od) (k :: tl idx))
                              x s0)))
      (seq 0 (prod (r :: od))).

(** [x + y] and [c * x] on buffers. *)
Definition vadd (x y : list K) : list K := zip_with sadd x y.
Definition vscale (c : K) (x : list K) : list K := map (smul c) x.

(** [A.T], and [A.T.conj()] when [c] is set. *)
Definition conj_transpose (c : bool) (M : matrix) : matrix :=
  if c then mconj (T M) else T M.

(** A matrix of a real element type stores real numbers. *)
Definition well_typed (M : matrix) : Prop :=
  iscomplexobj M = false -> forall i k, sconj (entry M i k) = entry M i k.

(** The matrix [_rmatvec] multiplies by: [A.T], and [A.T.conj()] when the
    [complex] attribute is set (the input and the product are then both
    conjugated). *)
Definition rmatvec_matrix (op : t) : matrix :=
  conj_transpose (complex op) (A op).

(** The [complex] attribute is as documented, true when the matrix has
    complex numbers: an operator whose attribute is not set holds real
    entries. *)
Definition complex_attr_sound (op : t) : Prop :=
  complex op = false ->
  forall i k, sconj (entry (A op) i k) = entry (A op) i k.

End WithScalar.

Arguments array2 K : clear implicits.
Arguments matrix K : clear implicits.
Arguments t K : clear implicits.

(** [np.array([[1, 2], [3, 4]])]. *)
Definition A_1234 : matrix Z :=
  Dense int64 {| a_shape := (2, 2); a_strides := (2, 1);
                 a_data := [1; 2; 3; 4]%Z |}.

(** [scipy.sparse.coo_matrix] of [[1, 2], [3, 4]], the entry [3] stored
    in two parts. *)
Definition S_1234 : matrix Z :=
  Sparse COO int64 2 2
         [(0, 0, 1%Z); (0, 1, 2%Z); (1, 0, 1%Z); (1, 0, 2%Z); (1, 1, 4%Z)].

(** [np.array([[1j, 1], [2, 1+1j], [0, 3-1j]])]. *)
Definition A_c32 : matrix GaussZ :=
  Dense complex128
        {| a_shape := (3, 2); a_strides := (2, 1);
           a_data := [(0, 1); (1, 0); (2, 0); (1, 1); (0, 0); (3, -1)]%Z |}.

(** [scipy.sparse.lil_matrix] of the same complex matrix. *)
Definition L_c32 : matrix GaussZ :=
  Sparse LIL complex128 3 2
         [(0, 0, (0, 1)%Z); (0, 1, (1, 0)%Z); (1, 0, (2, 0)%Z);
          (1, 1, (1, 1)%Z); (2, 1, (3, -1)%Z)].

(** [scipy.sparse.dok_matrix] of [[1, 2], [3, 4]]. *)
Definition D_1234 : matrix Z :=
  Sparse DOK int64 2 2
         [(0, 0, 1%Z); (0, 1, 2%Z); (1, 0, 3%Z); (1, 1, 4%Z)].

End MatrixMult.

(* ================================================================== *)
(** * Facts about the NumPy primitives *)

Module NumpyFacts.
Import Numpy.

(** ** Shapes and products *)

Lemma prod_cons (d : nat) (s : list nat) : prod (d :: s) = d * prod s.
Proof. reflexivity. Qed.

Lemma prod_perm (l l' : list nat) : Permutation l l' -> prod l = prod l'.
Proof.
  induction 1; simpl; lia.
Qed.

Lemma c_strides_length (s : list nat) : length (c_strides s) = length s.
Proof. induction s; simpl; congruence. Qed.

(** ** 64-bit wrap-around *)

Lemma wrap64_eqm (a b : Z) :
  (a mod 2 ^ 64 = b mod 2 ^ 64)%Z -> wrap64 a = wrap64 b.
Proof.
  intros H. unfold wrap64.
  rewrite (Z.add_mod a), (Z.add_mod b), H by lia. reflexivity.
Qed.

Lemma wrap64_mod (a : Z) : (wrap64 a mod 2 ^ 64 = a mod 2 ^ 64)%Z.
Proof.
  unfold wrap64.
  rewrite Zminus_mod, Zmod_mod, <- Zminus_mod.
  f_equal. lia.
Qed.

Lemma wrap64_mul_l (a b : Z) : wrap64 (wrap64 a * b) = wrap64 (a * b).
Proof.
  apply wrap64_eqm.
  rewrite Z.mul_mod, wrap64_mod, <- Z.mul_mod by lia. reflexivity.
Qed.

Lemma wrap64_idem (a : Z) : wrap64 (wrap64 a) = wrap64 a.
Proof. apply wrap64_eqm, wrap64_mod. Qed.

Lemma np_prod_fold (l : list nat) (acc : Z) :
  wrap64 (fold_left (fun acc d => wrap64 (acc * Z.of_nat d)) l acc)
  = wrap64 (acc * Z.of_nat (prod l)).
Proof.
  revert acc; induction l as [|d l IH]; intros acc; simpl.
  - f_equal; lia.
  - rewrite IH, wrap64_mul_l. f_equal.
    change (fold_right Nat.mul 1 l) with (prod l). lia.
Qed.

Lemma np_prod_fold_wrapped (l : list nat) (acc : Z) :
  wrap64 acc = acc ->
  wrap64 (fold_left (fun acc d => wrap64 (acc * Z.of_nat d)) l acc)
  = fold_left (fun acc d => wrap64 (acc * Z.of_nat d)) l acc.
Proof.
  revert acc; induction l as [|d l IH]; intros acc Hacc; simpl; auto.
  apply IH, wrap64_idem.
Qed.

(** [np.prod] is the mathematical product reduced to 64 bits. *)
Lemma np_prod_spec (l : list nat) : np_prod l = wrap64 (Z.of_nat (prod l)).
Proof.
  unfold np_prod.
  rewrite <- np_prod_fold_wrapped by reflexivity.
  rewrite np_prod_fold. f_equal. lia.
Qed.

Lemma np_prod_perm (l l' : list nat) :
  Permutation l l' -> np_prod l = np_prod l'.
Proof. intros H. rewrite !np_prod_spec, (prod_perm H). reflexivity. Qed.

(** ** Row-major order: [ravel_multi_index] and [unravel_index] *)

Lemma unravel_in_bounds (shape : list nat) (k : nat) :
  k < prod shape -> in_bounds (unravel_index shape k) shape.
Proof.
  revert k; induction shape as [|d s IH]; intros k Hk; simpl.
  - constructor.
  - rewrite prod_cons in Hk.
    assert (0 < prod s) by nia.
    constructor.
    + apply Nat.Div0.div_lt_upper_bound. lia.
    + apply IH, Nat.mod_upper_bound. lia.
Qed.

Lemma ravel_unravel (shape : list nat) (k : nat) :
  k < prod shape -> ravel_multi_index shape (unravel_index shape k) = k.
Proof.
  unfold ravel_multi_index.
  revert k; induction shape as [|d s IH]; intros k Hk; simpl.
  - simpl in Hk. lia.
  - rewrite prod_cons in Hk.
    assert (0 < prod s) by nia.
    rewrite IH by (apply Nat.mod_upper_bound; lia).
    pose proof (Nat.div_mod_eq k (prod s)). lia.
Qed.

Lemma ravel_lt (shape idx : list nat) :
  in_bounds idx shape -> ravel_multi_index shape idx < prod shape.
Proof.
  unfold ravel_multi_index, in_bounds.
  induction 1 as [|i d idx s Hi _ IH]; simpl.
  - lia.
  - change (fold_right Nat.mul 1 s) with (prod s). nia.
Qed.

Lemma unravel_ravel (shape idx : list nat) :
  in_bounds idx shape ->
  unravel_index shape (ravel_multi_index shape idx) = idx.
Proof.
  intros H. pose proof H as Hb. revert Hb.
  unfold ravel_multi_index, in_bounds in *.
  induction H as [|i d idx s Hi Hrest IH]; intros Hb; simpl.
  - reflexivity.
  - assert (Hr : offset idx (c_strides s) < prod s) by (apply ravel_lt, Hrest).
    f_equal.
    + rewrite Nat.div_add_l by lia. rewrite Nat.div_small; lia.
    + rewrite Nat.add_comm, Nat.Div0.mod_add, Nat.mod_small by lia.
      apply IH, Hrest.
Qed.

Lemma in_bounds_length (idx shape : list nat) :
  in_bounds idx shape -> length idx = length shape.
Proof. induction 1; simpl; congruence. Qed.

Lemma in_bounds_nth (idx shape : list nat) (i : nat) :
  in_bounds idx shape -> i < length shape -> nth i idx 0 < nth i shape 0.
Proof.
  intros H; revert i; induction H; intros [|i] Hi; simpl in *; try lia.
  apply IHForall2. lia.
Qed.

(** ** Reading a strided view *)

Lemma nth_flat_map_blocks {A : Type} (f : nat -> list A) (P : nat) (d : A)
    (n start k : nat) :
  (forall i, length (f i) = P) ->
  k < n * P ->
  nth k (flat_map f (seq start n)) d = nth (k mod P) (f (start + k / P)) d.
Proof.
  intros Hf. revert start k; induction n as [|n IH]; intros start k Hk.
  - lia.
  - simpl. destruct (Nat.lt_ge_cases k P) as [Hlt|Hge].
    + rewrite app_nth1 by (rewrite Hf; exact Hlt).
      rewrite Nat.div_small, Nat.mod_small, Nat.add_0_r by lia. reflexivity.
    + rewrite app_nth2 by (rewrite Hf; lia).
      rewrite Hf, IH by lia.
      assert (P <> 0) by lia.
      replace k with ((k - P) + 1 * P) at 3 4 by lia.
      rewrite Nat.Div0.mod_add, Nat.div_add by lia.
      f_equal. f_equal. lia.
Qed.

Lemma ravel_offsets_length (shape strides : list nat) (base : nat) :
  length (ravel_offsets shape strides base) = prod shape.
Proof.
  revert strides base; induction shape as [|d s IH]; intros strides base; simpl.
  - reflexivity.
  - rewrite (@flat_map_constant_length _ _ (prod s)).
    + rewrite length_seq. reflexivity.
    + intros; apply IH.
Qed.

(** The [k]-th element read by [ravel] is the one at the multi-index
    [unravel_index shape k] of the view. *)
Lemma ravel_offsets_nth (shape strides : list nat) (base k : nat) :
  length strides = length shape ->
  k < prod shape ->
  nth k (ravel_offsets shape strides base) 0
  = base + offset (unravel_index shape k) strides.
Proof.
  revert strides base k; induction shape as [|d s IH];
    intros strides base k Hlen Hk.
  - simpl in *. destruct k; [destruct strides; simpl; lia | lia].
  - destruct strides as [|st strides]; [discriminate|].
    simpl in Hlen. rewrite prod_cons in Hk.
    assert (0 < prod s) by nia.
    cbn [ravel_offsets unravel_index offset hd tl].
    rewrite (@nth_flat_map_blocks _ _ (prod s)).
    + rewrite IH by (try apply Nat.mod_upper_bound; lia). simpl. lia.
    + intros; apply ravel_offsets_length.
    + exact Hk.
Qed.

(** ** Permutations of [range(n)] and [gather] *)

Lemma is_perm_length {n : nat} {p : list nat} : is_perm n p -> length p = n.
Proof.
  intros H. rewrite (Permutation_length H). apply length_seq.
Qed.

Lemma is_perm_lt {n : nat} {p : list nat} {a : nat} :
  is_perm n p -> In a p -> a < n.
Proof.
  intros H Ha. apply (Permutation_in _ H), in_seq in Ha. lia.
Qed.

Lemma is_perm_In {n : nat} {p : list nat} {i : nat} :
  is_perm n p -> i < n -> In i p.
Proof.
  intros H Hi. apply (Permutation_in _ (Permutation_sym H)), in_seq. lia.
Qed.

Lemma is_perm_NoDup {n : nat} {p : list nat} : is_perm n p -> NoDup p.
Proof.
  intros H. apply (Permutation_NoDup (Permutation_sym H)), seq_NoDup.
Qed.

Lemma is_perm_nth_lt {n : nat} {p : list nat} {j : nat} :
  is_perm n p -> j < n -> nth j p 0 < n.
Proof.
  intros H Hj. apply (is_perm_lt H), nth_In.
  rewrite (is_perm_length H). exact Hj.
Qed.

(** A list of [n] distinct numbers below [n] is a permutation of
    [range(n)]. *)
Lemma NoDup_is_perm (n : nat) (p : list nat) :
  NoDup p -> length p = n -> (forall a, In a p -> a < n) -> is_perm n p.
Proof.
  intros Hnd Hlen Hlt. apply NoDup_Permutation_bis; auto.
  - rewrite length_seq. lia.
  - intros a Ha. apply in_seq. specialize (Hlt a Ha). lia.
Qed.

Lemma gather_length (l p : list nat) : length (gather l p) = length p.
Proof. apply length_map. Qed.

Lemma nth_gather (l p : list nat) (j : nat) :
  j < length p -> nth j (gather l p) 0 = nth (nth j p 0) l 0.
Proof.
  intros Hj. unfold gather.
  rewrite (nth_indep _ 0 (nth 0 l 0)) by (rewrite length_map; exact Hj).
  apply (map_nth (fun i => nth i l 0)).
Qed.

Lemma gather_seq (l : list nat) : gather l (seq 0 (length l)) = l.
Proof.
  apply (nth_ext _ _ 0 0).
  - rewrite gather_length. apply length_seq.
  - intros j Hj. rewrite gather_length, length_seq in Hj.
    rewrite nth_gather by (rewrite length_seq; exact Hj).
    rewrite seq_nth by exact Hj. reflexivity.
Qed.

Lemma gather_perm (l p : list nat) :
  is_perm (length l) p -> Permutation (gather l p) l.
Proof.
  intros H. rewrite <- (gather_seq l) at 2.
  apply Permutation_map, H.
Qed.

Lemma in_bounds_gather (idx shape p : list nat) :
  in_bounds idx shape ->
  (forall a, In a p -> a < length shape) ->
  in_bounds (gather idx p) (gather shape p).
Proof.
  intros Hb. unfold in_bounds, gather.
  induction p as [|a p IH]; intros Hp; simpl; constructor.
  - apply in_bounds_nth; auto. apply Hp. now left.
  - apply IH. intros; apply Hp. now right.
Qed.

(** The position of a multi-index does not change when the index and the
    strides are permuted together. *)
Lemma offset_gather (idx st p : list nat) :
  offset (gather idx p) (gather st p)
  = list_sum (map (fun i => nth i idx 0 * nth i st 0) p).
Proof. induction p as [|a p IH]; simpl; auto. Qed.

Lemma offset_seq (idx st : list nat) :
  length st = length idx ->
  offset idx st
  = list_sum (map (fun i => nth i idx 0 * nth i st 0) (seq 0 (length idx))).
Proof.
  revert st; induction idx as [|i idx IH]; intros [|s st] Hlen;
    try discriminate; auto.
  simpl in Hlen. cbn [offset].
  rewrite (IH st) by lia.
  cbn [length seq map]. rewrite <- seq_shift, map_map. reflexivity.
Qed.

Lemma offset_perm (n : nat) (p idx st : list nat) :
  is_perm n p -> length idx = n -> length st = n ->
  offset (gather idx p) (gather st p) = offset idx st.
Proof.
  intros Hp Hi Hs.
  rewrite offset_gather, offset_seq by congruence.
  rewrite Hi. apply Permutation_list_sum, Permutation_map, Hp.
Qed.

Lemma inverse_of_nth {n : nat} {p q : list nat} {i : nat} :
  is_perm n p -> inverse_of n p q -> i < n ->
  nth i q 0 < n /\ nth (nth i q 0) p 0 = i.
Proof.
  intros Hp [Hlen Hinv] Hi.
  destruct (In_nth p i 0 (is_perm_In Hp Hi)) as (j & Hj & Hji).
  rewrite (is_perm_length Hp) in Hj.
  rewrite <- Hji at 1 2. rewrite Hinv by exact Hj. auto.
Qed.

Lemma inverse_of_perm (n : nat) (p q : list nat) :
  is_perm n p -> inverse_of n p q -> is_perm n q.
Proof.
  intros Hp Hq. pose proof Hq as [Hlen _].
  apply NoDup_is_perm; auto.
  - apply (NoDup_nth q 0). intros i j Hi Hj Heq.
    rewrite Hlen in Hi, Hj.
    destruct (inverse_of_nth Hp Hq Hi) as [_ <-].
    destruct (inverse_of_nth Hp Hq Hj) as [_ <-].
    now rewrite Heq.
  - intros a Ha. destruct (In_nth q a 0 Ha) as (i & Hi & <-).
    rewrite Hlen in Hi. apply (inverse_of_nth Hp Hq Hi).
Qed.

Lemma gather_gather_inverse (n : nat) (p q l : list nat) :
  is_perm n p -> inverse_of n p q -> length l = n ->
  gather (gather l p) q = l.
Proof.
  intros Hp Hq Hl. pose proof Hq as [Hlen _].
  apply (nth_ext _ _ 0 0).
  - rewrite gather_length. congruence.
  - intros i Hi. rewrite gather_length, Hlen in Hi.
    destruct (inverse_of_nth Hp Hq Hi) as [Hlt Hinv].
    rewrite nth_gather by lia.
    rewrite nth_gather by (rewrite (is_perm_length Hp); exact Hlt).
    now rewrite Hinv.
Qed.

Lemma gather_inverse_gather (n : nat) (p q l : list nat) :
  is_perm n p -> inverse_of n p q -> length l = n ->
  gather (gather l q) p = l.
Proof.
  intros Hp Hq Hl. pose proof Hq as [Hlen Hinv].
  apply (nth_ext _ _ 0 0).
  - rewrite gather_length, (is_perm_length Hp). congruence.
  - intros j Hj. rewrite gather_length, (is_perm_length Hp) in Hj.
    rewrite nth_gather by (rewrite (is_perm_length Hp); exact Hj).
    rewrite nth_gather by (rewrite Hlen; apply (is_perm_nth_lt Hp Hj)).
    now rewrite Hinv.
Qed.

(** ** Results *)

Lemma bind_Ok {A B : Type} (r : result A) (k : A -> result B) (b : B) :
  bind r k = Ok b -> exists a, r = Ok a /\ k a = Ok b.
Proof. destruct r; simpl; [eauto | discriminate]. Qed.

Ltac inv_bind H :=
  let a := fresh "a" in
  let Ha := fresh "Ha" in
  apply bind_Ok in H; destruct H as (a & Ha & H).

(** ** [normalize_axis_index] *)

Lemma normalize_axis_index_Ok (ax : Z) (n a : nat) :
  normalize_axis_index ax n = Ok a -> a < n.
Proof.
  unfold normalize_axis_index.
  destruct (_ && _)%bool eqn:E; [|discriminate].
  apply andb_prop in E as [E1 E2].
  apply Z.leb_le in E1. apply Z.ltb_lt in E2.
  destruct (ax <? 0)%Z eqn:E3; intros [= <-]; lia.
Qed.

Lemma normalize_axis_index_out (ax : Z) (n : nat) :
  (ax < - Z.of_nat n \/ Z.of_nat n <= ax)%Z ->
  normalize_axis_index ax n = Raise AxisError.
Proof.
  intros H. unfold normalize_axis_index.
  destruct (_ && _)%bool eqn:E; [|reflexivity].
  apply andb_prop in E as [E1 E2].
  apply Z.leb_le in E1. apply Z.ltb_lt in E2. lia.
Qed.

Lemma normalize_axis_index_exn (ax : Z) (n : nat) (e : exn) :
  normalize_axis_index ax n = Raise e -> e = AxisError.
Proof.
  unfold normalize_axis_index.
  destruct (_ && _)%bool; [destruct (ax <? 0)%Z; discriminate | congruence].
Qed.

Lemma mapM_normalize_Ok (n : nat) (axes0 : list Z) (axes : list nat) :
  mapM (fun ax => normalize_axis_index ax n) axes0 = Ok axes ->
  length axes = length axes0 /\ forall a, In a axes -> a < n.
Proof.
  revert axes; induction axes0 as [|ax axes0 IH]; intros axes H; simpl in H.
  - injection H as <-. split; [reflexivity | intros a []].
  - inv_bind H. inv_bind H. injection H as <-.
    destruct (IH _ Ha0) as [Hl Hlt]. split; [simpl; congruence|].
    intros b [<-|Hb]; [eapply normalize_axis_index_Ok; eassumption | auto].
Qed.

Lemma mapM_normalize_out (n : nat) (axes0 : list Z) :
  Exists (fun ax => (ax < - Z.of_nat n \/ Z.of_nat n <= ax)%Z) axes0 ->
  mapM (fun ax => normalize_axis_index ax n) axes0 = Raise AxisError.
Proof.
  induction 1 as [ax l H | ax l _ IH]; simpl.
  - rewrite normalize_axis_index_out by exact H. reflexivity.
  - destruct (normalize_axis_index ax n) eqn:E; simpl.
    + rewrite IH. reflexivity.
    + f_equal. eapply normalize_axis_index_exn, E.
Qed.

Lemma mapM_normalize_exn (n : nat) (axes0 : list Z) (e : exn) :
  mapM (fun ax => normalize_axis_index ax n) axes0 = Raise e -> e = AxisError.
Proof.
  revert e; induction axes0 as [|a l IH]; intros e; simpl; [discriminate|].
  destruct (normalize_axis_index a n) eqn:E; simpl.
  - destruct (mapM _ l); simpl; [discriminate|].
    intros [= <-]. now apply IH.
  - intros [= <-]. eapply normalize_axis_index_exn, E.
Qed.

(** ** [np.unique] *)

Lemma insert_unique_In (a : nat) (l : list nat) (x : nat) :
  In x (insert_unique a l) <-> x = a \/ In x l.
Proof.
  induction l as [|b l IH]; simpl.
  - intuition.
  - destruct (a <? b) eqn:E1; [simpl; intuition|].
    destruct (a =? b) eqn:E2.
    + apply Nat.eqb_eq in E2. subst. simpl. intuition.
    + simpl. rewrite IH. intuition.
Qed.

Lemma insert_unique_sorted (a : nat) (l : list nat) :
  StronglySorted lt l -> StronglySorted lt (insert_unique a l).
Proof.
  induction 1 as [|b l Hs IH Hb]; simpl.
  - repeat constructor.
  - destruct (a <? b) eqn:E1.
    + apply Nat.ltb_lt in E1. constructor; [constructor; auto|].
      constructor; auto.
      rewrite Forall_forall in *. intros x Hx. specialize (Hb x Hx). lia.
    + destruct (a =? b) eqn:E2; [constructor; auto|].
      apply Nat.ltb_ge in E1. apply Nat.eqb_neq in E2.
      constructor; auto.
      rewrite Forall_forall in *. intros x Hx.
      apply insert_unique_In in Hx as [->|Hx]; [lia | auto].
Qed.

Lemma np_unique_In (l : list nat) (x : nat) : In x (np_unique l) <-> In x l.
Proof.
  induction l as [|a l IH]; simpl; [tauto|].
  rewrite insert_unique_In, IH. intuition.
Qed.

Lemma np_unique_NoDup (l : list nat) : NoDup (np_unique l).
Proof.
  assert (Hs : StronglySorted lt (np_unique l)).
  { induction l; simpl; [constructor | now apply insert_unique_sorted]. }
  induction Hs as [|b l' _ IH Hb]; constructor; auto.
  intros Hin. rewrite Forall_forall in Hb. specialize (Hb _ Hin). lia.
Qed.

Lemma np_unique_perm (n : nat) (p : list nat) :
  is_perm n p -> length (np_unique p) = n.
Proof.
  intros Hp. rewrite <- (is_perm_length Hp). apply Permutation_length.
  apply NoDup_Permutation.
  - apply np_unique_NoDup.
  - apply (is_perm_NoDup Hp).
  - apply np_unique_In.
Qed.

(** [n] indices below [n] with [n] distinct values: a permutation. *)
Lemma np_unique_full (n : nat) (p : list nat) :
  (forall a, In a p -> a < n) -> length p = n -> length (np_unique p) = n ->
  is_perm n p.
Proof.
  intros Hlt Hlen Hu.
  assert (Hincl : incl (np_unique p) p) by (intros x; apply np_unique_In).
  apply NoDup_is_perm; auto.
  apply (NoDup_incl_NoDup (np_unique_NoDup p)); [lia | exact Hincl].
Qed.

(** ** Index assignment *)

Lemma set_nth_length {A : Type} (i : nat) (v : A) (l : list A) :
  length (set_nth i v l) = length l.
Proof.
  revert i; induction l as [|a l IH]; intros [|i]; simpl; auto.
Qed.

Lemma nth_set_nth_eq {A : Type} (i : nat) (v d : A) (l : list A) :
  i < length l -> nth i (set_nth i v l) d = v.
Proof.
  revert i; induction l as [|a l IH]; intros [|i] Hi; simpl in *;
    try lia; auto.
  apply IH. lia.
Qed.

Lemma nth_set_nth_neq {A : Type} (i k : nat) (v d : A) (l : list A) :
  k <> i -> nth k (set_nth i v l) d = nth k l d.
Proof.
  revert i k; induction l as [|a l IH]; intros [|i] [|k] Hk; simpl;
    try congruence; auto.
Qed.

(** Writing [vals] at distinct positions [idx]: every position of [idx]
    holds its value, every other cell is unchanged. *)
Lemma scatter_spec (idx vals a : list nat) :
  NoDup idx ->
  length vals = length idx ->
  (forall i, In i idx -> i < length a) ->
  let r := fold_left (fun acc iv => set_nth (fst iv) (snd iv) acc)
                     (combine idx vals) a in
  length r = length a
  /\ (forall j, j < length idx -> nth (nth j idx 0) r 0 = nth j vals 0)
  /\ (forall k, ~ In k idx -> nth k r 0 = nth k a 0).
Proof.
  intros Hnd. revert vals a.
  induction Hnd as [|i idx Hni Hnd IH]; intros vals a Hlen Hlt.
  - simpl. repeat split; auto. intros j Hj. simpl in Hj. lia.
  - destruct vals as [|v vals]; [discriminate|].
    simpl in Hlen. cbn [combine fold_left fst snd].
    destruct (IH vals (set_nth i v a)) as (Hl & Hhit & Hmiss).
    + lia.
    + intros k Hk. rewrite set_nth_length. apply Hlt. now right.
    + cbv zeta. rewrite Hl, set_nth_length. repeat split.
      * intros [|j] Hj; simpl in Hj; cbn [nth].
        -- rewrite Hmiss by exact Hni.
           apply nth_set_nth_eq, Hlt. now left.
        -- apply Hhit. lia.
      * intros k Hk. rewrite Hmiss by (intros ?; apply Hk; now right).
        apply nth_set_nth_neq. intros ->. apply Hk. now left.
Qed.

Lemma existsb_out_of_range (n : nat) (idx : list nat) :
  (forall i, In i idx -> i < n) -> existsb (fun i => n <=? i) idx = false.
Proof.
  intros H. induction idx as [|i idx IH]; simpl; auto.
  rewrite IH by (intros; apply H; now right).
  rewrite orb_false_r. apply Nat.leb_gt, H. now left.
Qed.

Lemma np_setitem_perm (n : nat) (p vals : list nat) :
  is_perm n p -> length vals = n ->
  exists r, np_setitem (np_zeros n) p vals = Ok r
            /\ length r = n
            /\ forall j, j < n -> nth (nth j p 0) r 0 = nth j vals 0.
Proof.
  intros Hp Hv. unfold np_setitem, np_zeros.
  rewrite repeat_length.
  rewrite existsb_out_of_range by (intros i; apply (is_perm_lt Hp)).
  rewrite Hv, (is_perm_length Hp), Nat.eqb_refl.
  destruct (@scatter_spec p vals (repeat 0 n)) as (Hl & Hhit & _).
  - apply (is_perm_NoDup Hp).
  - rewrite (is_perm_length Hp). exact Hv.
  - intros i Hi. rewrite repeat_length. apply (is_perm_lt Hp Hi).
  - eexists. split; [reflexivity|]. rewrite repeat_length in Hl.
    split; [exact Hl|]. intros j Hj. apply Hhit.
    rewrite (is_perm_length Hp). exact Hj.
Qed.

Lemma np_setitem_exn (a idx vals : list nat) :
  np_setitem a idx vals
  <> Raise (ValueError "axes must contain each direction once").
Proof.
  unfold np_setitem.
  destruct (existsb _ idx); [discriminate|].
  destruct (_ =? length idx); [discriminate|].
  destruct (_ =? 1); discriminate.
Qed.

(** Broadcasting one value into a one-cell array. *)
Lemma broadcast_one (v : nat) (idx : list nat) (c : nat) :
  (forall i, In i idx -> i < 1) ->
  fold_left (fun acc i => set_nth i v acc) idx [c]
  = match idx with [] => [c] | _ => [v] end.
Proof.
  intros H. revert c; induction idx as [|i idx IH]; intros c; simpl; auto.
  assert (i = 0) as -> by (specialize (H i (or_introl eq_refl)); lia).
  simpl. rewrite IH by (intros; apply H; now right).
  destruct idx; reflexivity.
Qed.

(** ** The checks of [transpose] *)

Lemma check_axes_Ok (n : nat) (seen axes : list nat) :
  NoDup axes ->
  (forall a, In a axes -> a < n /\ ~ In a seen) ->
  check_axes n seen axes = Ok tt.
Proof.
  intros Hnd. revert seen.
  induction Hnd as [|a axes Hna Hnd IH]; intros seen H; simpl; auto.
  destruct (H a (or_introl eq_refl)) as [Hlt Hns].
  apply Nat.leb_gt in Hlt. rewrite Hlt.
  destruct (existsb (Nat.eqb a) seen) eqn:E.
  - apply existsb_exists in E as (b & Hb & Hab).
    apply Nat.eqb_eq in Hab. subst. contradiction.
  - apply IH. intros b Hb. destruct (H b (or_intror Hb)) as [? ?].
    split; auto. intros [<-|?]; contradiction.
Qed.

Lemma np_transpose_perm {A : Type} (a : ndarray A) (p : list nat) :
  is_perm (length (Numpy.shape a)) p ->
  np_transpose a p
  = Ok {| data := data a;
          Numpy.shape := gather (Numpy.shape a) p;
          strides := gather (strides a) p |}.
Proof.
  intros Hp. unfold np_transpose.
  rewrite (is_perm_length Hp), Nat.eqb_refl. cbn [negb].
  rewrite check_axes_Ok; auto.
  - apply (is_perm_NoDup Hp).
  - intros b Hb. split; [apply (is_perm_lt Hp Hb) | intros []].
Qed.

(** ** Reading a transposed view *)

Lemma np_ravel_length {A : Type} (dflt : A) (a : ndarray A) :
  length (np_ravel dflt a) = prod (Numpy.shape a).
Proof. unfold np_ravel. rewrite length_map. apply ravel_offsets_length. Qed.

Lemma np_ravel_nth {A : Type} (dflt : A) (a : ndarray A) (k : nat) :
  length (strides a) = length (Numpy.shape a) ->
  k < prod (Numpy.shape a) ->
  nth k (np_ravel dflt a) dflt
  = nth (offset (unravel_index (Numpy.shape a) k) (strides a)) (data a) dflt.
Proof.
  intros Hlen Hk. unfold np_ravel.
  rewrite (nth_indep _ dflt (nth 0 (data a) dflt))
    by (rewrite length_map, ravel_offsets_length; exact Hk).
  rewrite (map_nth (fun o => nth o (data a) dflt)).
  rewrite ravel_offsets_nth by assumption. reflexivity.
Qed.

Lemma inverse_of_sym (n : nat) (p q : list nat) :
  is_perm n p -> inverse_of n p q -> inverse_of n q p.
Proof.
  intros Hp Hq. split; [apply (is_perm_length Hp)|].
  intros i Hi. apply (inverse_of_nth Hp Hq Hi).
Qed.

(** Element [J] of [x.reshape(s).transpose(p)] is element [I] of
    [x.reshape(s)], where [I[p[m]] = J[m]]; [ravel] lists the elements in
    row-major order of the transposed shape. *)
Lemma transposed_read {A : Type} (dflt : A) (n : nat) (p q s J : list nat)
    (x : list A) :
  is_perm n p -> inverse_of n p q -> length s = n ->
  in_bounds J (gather s p) ->
  nth (ravel_multi_index (gather s p) J)
      (np_ravel dflt {| data := x; Numpy.shape := gather s p;
                        strides := gather (c_strides s) p |}) dflt
  = nth (ravel_multi_index s (gather J q)) x dflt.
Proof.
  intros Hp Hq Hs HJ.
  assert (HlJ : length J = n).
  { rewrite (in_bounds_length HJ), gather_length. apply (is_perm_length Hp). }
  rewrite np_ravel_nth; cbn [Numpy.shape strides data].
  - rewrite unravel_ravel by exact HJ.
    rewrite <- (gather_inverse_gather J Hp Hq HlJ) at 1.
    unfold ravel_multi_index. f_equal.
    eapply offset_perm; [exact Hp | | ].
    + rewrite gather_length. apply Hq.
    + rewrite c_strides_length. exact Hs.
  - rewrite !gather_length. reflexivity.
  - apply ravel_lt, HJ.
Qed.

Lemma wrap64_fits (n : nat) : fits_int64 n -> wrap64 (Z.of_nat n) = Z.of_nat n.
Proof.
  unfold fits_int64, int64_max, wrap64. intros Hn.
  rewrite Z.mod_small by lia. lia.
Qed.

Lemma np_prod_fits (l : list nat) :
  fits_int64 (prod l) -> np_prod l = Z.of_nat (prod l).
Proof. intros Hf. rewrite np_prod_spec. apply wrap64_fits, Hf. Qed.

Lemma np_reshape_int_nonneg {A : Type} (x : list A) (c P : nat) :
  np_reshape_int x [Z.of_nat c; Z.of_nat P] = np_reshape x [c; P].
Proof.
  unfold np_reshape_int. cbn [filter].
  replace (Z.of_nat c <? 0)%Z with false by (symmetry; apply Z.ltb_ge; lia).
  replace (Z.of_nat P <? 0)%Z with false by (symmetry; apply Z.ltb_ge; lia).
  cbn [map]. now rewrite !Nat2Z.id.
Qed.

End NumpyFacts.

(* ================================================================== *)
(** * Properties of [Transpose] *)

Module TransposeSpec.
Import Numpy NumpyFacts Transpose.

Lemma as_int_array_Ok (l l' : list nat) : as_int_array l = Ok l' -> l' = l.
Proof.
  unfold as_int_array. destruct (forallb _ l); congruence.
Qed.

Lemma as_int_array_fits (l : list nat) :
  Forall fits_int64 l -> as_int_array l = Ok l.
Proof.
  intros H. unfold as_int_array.
  replace (forallb _ l) with true; [reflexivity|].
  symmetry. apply forallb_forall. intros d Hd.
  rewrite Forall_forall in H. apply Z.leb_le, H, Hd.
Qed.

(** What a successful construction went through. *)
Lemma init_inv (dims0 : value_or_list_like) (axes0 : list Z)
    (dt : np_dtype) (nm : string) (op : t) :
  __init__ dims0 axes0 dt nm = Ok op ->
  let ds := _value_or_list_like_to_tuple dims0 in
  dims op = ds
  /\ mapM (fun ax => normalize_axis_index ax (length ds)) axes0 = Ok (axes op)
  /\ length (np_unique (axes op)) = length ds
  /\ np_setitem (np_zeros (length ds)) (axes op) (np_arange (length ds))
     = Ok (axesd op)
  /\ np_setitem (np_zeros (length ds)) (axesd op) ds = Ok (dimsd op)
  /\ Transpose.shape op = (np_prod (dimsd op), np_prod ds).
Proof.
  unfold __init__. intros H. inv_bind H.
  destruct (length (np_unique a) =? _) eqn:E; [|discriminate].
  cbn [negb] in H. apply Nat.eqb_eq in E.
  inv_bind H. inv_bind H. inv_bind H.
  apply as_int_array_Ok in Ha1. subst a1.
  injection H as <-. cbn. auto 6.
Qed.

Lemma setitem_inverse (n : nat) (p q : list nat) :
  is_perm n p -> np_setitem (np_zeros n) p (np_arange n) = Ok q ->
  inverse_of n p q.
Proof.
  intros Hp H.
  destruct (@np_setitem_perm n p (np_arange n) Hp) as (r & Hr & Hl & Hn).
  - apply length_seq.
  - rewrite H in Hr. injection Hr as ->. split; [exact Hl|].
    intros j Hj. rewrite Hn by exact Hj. apply seq_nth, Hj.
Qed.

Lemma setitem_gather (n : nat) (p q ds dd : list nat) :
  is_perm n p -> inverse_of n p q -> length ds = n ->
  np_setitem (np_zeros n) q ds = Ok dd ->
  dd = gather ds p.
Proof.
  intros Hp Hq Hds H.
  pose proof (inverse_of_perm Hp Hq) as Hqp.
  destruct (@np_setitem_perm n q ds Hqp Hds) as (r & Hr & Hl & Hn).
  rewrite H in Hr. injection Hr as ->.
  apply (nth_ext _ _ 0 0).
  - rewrite gather_length, (is_perm_length Hp). exact Hl.
  - intros j Hj. rewrite Hl in Hj.
    rewrite nth_gather by (rewrite (is_perm_length Hp); exact Hj).
    rewrite <- (Hn (nth j p 0)) by apply (is_perm_nth_lt Hp Hj).
    destruct Hq as [_ Hq]. rewrite Hq by exact Hj. reflexivity.
Qed.

Lemma init_wf (dims0 : value_or_list_like) (axes0 : list Z)
    (dt : np_dtype) (nm : string) (op : t) :
  __init__ dims0 axes0 dt nm = Ok op ->
  is_perm (length (dims op)) (axes op) ->
  wf op.
Proof.
  intros H Hp. apply init_inv in H. cbv zeta in H.
  destruct H as (Hd & _ & _ & Hax & Hdd & _).
  rewrite <- Hd in *.
  pose proof (setitem_inverse Hp Hax) as Hinv.
  constructor; auto.
  eapply setitem_gather; eauto.
Qed.

Lemma init_perm_Ok (dims0 : value_or_list_like) (axes0 : list Z)
    (dt : np_dtype) (nm : string) (p : list nat) :
  let ds := _value_or_list_like_to_tuple dims0 in
  mapM (fun ax => normalize_axis_index ax (length ds)) axes0 = Ok p ->
  is_perm (length ds) p ->
  Forall fits_int64 ds ->
  exists op, __init__ dims0 axes0 dt nm = Ok op
             /\ dims op = ds /\ axes op = p.
Proof.
  intros ds Hm Hp Hfit. unfold __init__. fold ds. rewrite Hm. cbn [bind].
  rewrite (np_unique_perm Hp), Nat.eqb_refl. cbn [negb].
  destruct (@np_setitem_perm _ p (np_arange (length ds)) Hp)
    as (q & Hq & Hlq & Hnq); [apply length_seq|].
  rewrite Hq. cbn [bind].
  rewrite (as_int_array_fits Hfit). cbn [bind].
  assert (Hinv : inverse_of (length ds) p q) by (eapply setitem_inverse; eauto).
  destruct (@np_setitem_perm _ q ds (inverse_of_perm Hp Hinv) eq_refl)
    as (dd & Hdd & _).
  rewrite Hdd. cbn [bind]. eexists. split; [reflexivity|]. auto.
Qed.

(** ** Forward and adjoint on a well-formed operator *)

Section Apply.
Context {A : Type} (dflt : A).

Lemma matvec_wf (op : t) (x : list A) :
  wf op -> length x = prod (dims op) ->
  _matvec dflt op x
  = Ok (np_ravel dflt {| data := x;
                         Numpy.shape := gather (dims op) (axes op);
                         strides := gather (c_strides (dims op)) (axes op) |}).
Proof.
  intros [Hp _ _] Hx. unfold _matvec, np_reshape.
  rewrite Hx, Nat.eqb_refl. cbn [bind].
  rewrite np_transpose_perm by exact Hp. reflexivity.
Qed.

Lemma dimsd_length (op : t) : wf op -> length (dimsd op) = length (dims op).
Proof.
  intros [Hp _ Hd]. rewrite Hd, gather_length. apply (is_perm_length Hp).
Qed.

Lemma dimsd_axesd (op : t) : wf op -> gather (dimsd op) (axesd op) = dims op.
Proof.
  intros [Hp Hi Hd]. rewrite Hd.
  apply (gather_gather_inverse (dims op) Hp Hi eq_refl).
Qed.

Lemma prod_dimsd (op : t) : wf op -> prod (dimsd op) = prod (dims op).
Proof.
  intros [Hp _ Hd]. rewrite Hd. apply prod_perm, gather_perm, Hp.
Qed.

Lemma rmatvec_wf (op : t) (y : list A) :
  wf op -> length y = prod (dimsd op) ->
  _rmatvec dflt op y
  = Ok (np_ravel dflt {| data := y;
                         Numpy.shape := gather (dimsd op) (axesd op);
                         strides := gather (c_strides (dimsd op)) (axesd op) |}).
Proof.
  intros Hwf Hy. pose proof Hwf as [Hp Hi _].
  unfold _rmatvec, np_reshape.
  rewrite Hy, Nat.eqb_refl. cbn [bind].
  rewrite np_transpose_perm; [reflexivity|].
  cbn [Numpy.shape]. rewrite (dimsd_length Hwf).
  apply (inverse_of_perm Hp Hi).
Qed.

Lemma roundtrip_wf (op : t) (x : list A) :
  wf op -> length x = prod (dims op) ->
  (y <- _matvec dflt op x ;; _rmatvec dflt op y) = Ok x.
Proof.
  intros Hwf Hx. pose proof Hwf as [Hp Hi Hd].
  rewrite matvec_wf by assumption. cbn [bind].
  rewrite rmatvec_wf; [|exact Hwf|];
    [|rewrite np_ravel_length; cbn [Numpy.shape]; now rewrite Hd].
  f_equal. apply (nth_ext _ _ dflt dflt).
  - rewrite np_ravel_length. cbn [Numpy.shape].
    rewrite (dimsd_axesd Hwf). auto.
  - intros k Hk. rewrite np_ravel_length in Hk. cbn [Numpy.shape] in Hk.
    rewrite (dimsd_axesd Hwf) in Hk.
    pose proof (unravel_in_bounds (dims op) Hk) as HI.
    set (I := unravel_index (dims op) k) in *.
    assert (HlI : length I = length (dims op)) by apply (in_bounds_length HI).
    rewrite <- (ravel_unravel (dims op) Hk) at 1. fold I.
    rewrite <- (dimsd_axesd Hwf) at 1.
    rewrite (@transposed_read _ dflt (length (dims op)) (axesd op) (axes op)).
    + rewrite Hd.
      rewrite (@transposed_read _ dflt (length (dims op)) (axes op) (axesd op));
        auto.
      * rewrite (gather_gather_inverse I Hp Hi HlI).
        f_equal. apply ravel_unravel, Hk.
      * apply in_bounds_gather; auto.
        intros a Ha. apply (is_perm_lt Hp Ha).
    + apply (inverse_of_perm Hp Hi).
    + apply (inverse_of_sym Hp Hi).
    + apply (dimsd_length Hwf).
    + rewrite (dimsd_axesd Hwf). exact HI.
Qed.
End Apply.

(** ** Every successful construction *)

(** [np_setitem] succeeded: the values had the length of the index list,
    or there was a single value. *)
Lemma np_setitem_Ok_cases (a idx vals r : list nat) :
  np_setitem a idx vals = Ok r ->
  length vals = length idx \/ length vals = 1.
Proof.
  unfold np_setitem. destruct (existsb _ idx); [discriminate|].
  destruct (length vals =? length idx) eqn:E1.
  - apply Nat.eqb_eq in E1. auto.
  - destruct (length vals =? 1) eqn:E2; [|discriminate].
    apply Nat.eqb_eq in E2. auto.
Qed.

Lemma init_dimsd_perm (dims0 : value_or_list_like) (axes0 : list Z)
    (dt : np_dtype) (nm : string) (op : t) :
  __init__ dims0 axes0 dt nm = Ok op ->
  Permutation (dimsd op) (dims op).
Proof.
  intros H. pose proof H as Hinit. apply init_inv in H. cbv zeta in H.
  destruct H as (Hd & Hm & Hu & Hax & Hdd & _).
  rewrite <- Hd in *.
  destruct (mapM_normalize_Ok _ _ Hm) as [_ Hlt].
  destruct (np_setitem_Ok_cases _ _ _ Hax) as [Hlen|Hone];
    unfold np_arange in *; rewrite length_seq in *.
  - (* as many axes as dimensions *)
    assert (Hp : is_perm (length (dims op)) (axes op))
      by (apply np_unique_full; auto).
    destruct (@init_wf _ _ _ _ _ Hinit Hp) as [_ _ ->]. apply gather_perm, Hp.
  - (* one dimension, the single value is broadcast *)
    destruct (Nat.eq_dec (length (axes op)) 1) as [Hl1|Hl1].
    + assert (Hp : is_perm (length (dims op)) (axes op))
        by (apply np_unique_full; auto; congruence).
      destruct (@init_wf _ _ _ _ _ Hinit Hp) as [_ _ ->]. apply gather_perm, Hp.
    + rewrite Hone in *.
      destruct (dims op) as [|d [|? ?]] eqn:Eds; try discriminate.
      unfold np_setitem in Hax. cbn [np_zeros repeat length] in Hax.
      rewrite existsb_out_of_range in Hax by exact Hlt.
      replace (length (seq 0 1) =? length (axes op)) with false in Hax
        by (symmetry; apply Nat.eqb_neq; simpl; congruence).
      cbn [length seq Nat.eqb hd] in Hax.
      rewrite broadcast_one in Hax by exact Hlt.
      assert (Hq : axesd op = [0])
        by (destruct (axes op); injection Hax as <-; reflexivity).
      rewrite Hq in Hdd. cbn in Hdd. injection Hdd as <-. apply Permutation_refl.
Qed.

(** ** The claims about [Transpose] *)

Lemma perm_120 : is_perm 3 [1; 2; 0].
Proof.
  unfold is_perm. cbn [seq].
  apply Permutation_sym, (@Permutation_cons_app _ [1; 2] [1; 2] [] 0).
  apply Permutation_refl.
Defined.

(** C1. For every valid Transpose operator ([dims] a non-empty shape, the
    normalised [axes] a permutation of [range(len(dims))]) and every flat
    input [x] of length [prod(dims)], the adjoint applied to the result of
    the forward application returns [x] exactly:
    [_rmatvec(_matvec(x)) == x]. *)
Theorem adjoint_of_forward_is_identity :
  forall (A : Type) (dflt : A) (dims0 : value_or_list_like) (axes0 : list Z)
         (dt : np_dtype) (nm : string) (op : t) (x : list A),
    __init__ dims0 axes0 dt nm = Ok op ->
    dims op <> [] ->
    is_perm (length (dims op)) (axes op) ->
    length x = prod (dims op) ->
    (y <- _matvec dflt op x ;; _rmatvec dflt op y) = Ok x.
Proof.
  intros A dflt dims0 axes0 dt nm op x Hinit _ Hp Hx.
  apply roundtrip_wf; [|exact Hx].
  eapply init_wf; eassumption.
Qed.

Lemma adjoint_of_forward_is_identity_witness :
  exists op,
    __init__ (ListLike [2; 3; 4]) [1; -1; 0]%Z float64 "T" = Ok op
    /\ (y <- _matvec 0 op (seq 0 24) ;; _rmatvec 0 op y) = Ok (seq 0 24).
Proof.
  assert (Hinit : __init__ (ListLike [2; 3; 4]) [1; -1; 0]%Z float64 "T"
                  = Ok op_234) by reflexivity.
  exists op_234. split; [exact Hinit|].
  apply (@adjoint_of_forward_is_identity nat 0 _ _ _ _ _ (seq 0 24) Hinit).
  - discriminate.
  - apply perm_120.
  - reflexivity.
Defined.

(** C5. For every valid construction (the normalised [axes] a permutation
    of [range(len(dims))], the extents fitting the cells of an integer
    array) the constructor succeeds and computes [axesd] as the inverse
    permutation, [axesd[axes[i]] = i]; [dimsd] with
    [dimsd[axesd[i]] = dims[i]], which is the same as
    [dims[axes[i]] = dimsd[i]] (placing the entries of [dimsd] at the
    positions [axes] gives back [dims]); and
    [shape = (prod(dimsd), prod(dims))]. *)
Theorem init_inverse_permutation :
  forall (dims0 : value_or_list_like) (axes0 : list Z) (p : list nat)
         (dt : np_dtype) (nm : string),
    let ds := _value_or_list_like_to_tuple dims0 in
    mapM (fun ax => normalize_axis_index ax (length ds)) axes0 = Ok p ->
    is_perm (length ds) p ->
    Forall fits_int64 ds ->
    exists op,
      __init__ dims0 axes0 dt nm = Ok op
      /\ dims op = ds /\ axes op = p
      /\ length (axesd op) = length ds
      /\ length (dimsd op) = length ds
      /\ (forall i, i < length ds ->
            nth (nth i (axes op) 0) (axesd op) 0 = i)
      /\ (forall i, i < length ds ->
            nth (nth i (axesd op) 0) (dimsd op) 0 = nth i ds 0)
      /\ (forall i, i < length ds ->
            nth (nth i (axes op) 0) ds 0 = nth i (dimsd op) 0)
      /\ Transpose.shape op = (np_prod (dimsd op), np_prod ds).
Proof.
  intros dims0 axes0 p dt nm ds Hm Hp Hfit.
  destruct (@init_perm_Ok dims0 axes0 dt nm p Hm Hp Hfit)
    as (op & Hinit & Hd & Ha).
  fold ds in Hd.
  exists op. split; [exact Hinit|]. split; [exact Hd|]. split; [exact Ha|].
  assert (Hp' : is_perm (length (dims op)) (axes op))
    by (rewrite Hd, Ha; exact Hp).
  pose proof (@init_wf _ _ _ _ _ Hinit Hp') as Hwf.
  pose proof Hwf as [_ Hi Hdd].
  pose proof (dimsd_length Hwf) as Hld.
  apply init_inv in Hinit. cbv zeta in Hinit.
  destruct Hinit as (_ & _ & _ & _ & _ & Hsh).
  fold ds in Hsh.
  rewrite Hd in *. destruct Hi as [Hlq Hi].
  repeat split; auto.
  - intros i Hi'. destruct (inverse_of_nth Hp' (conj Hlq Hi) Hi') as [Hlt _].
    rewrite Hdd, nth_gather, (proj2 (inverse_of_nth Hp' (conj Hlq Hi) Hi'));
      [reflexivity|].
    rewrite (is_perm_length Hp'). exact Hlt.
  - intros i Hi'. rewrite Hdd, nth_gather; [reflexivity|].
    rewrite (is_perm_length Hp'). exact Hi'.
Qed.

Lemma init_inverse_permutation_witness :
  exists op,
    __init__ (ListLike [2; 3; 4]) [1; -1; 0]%Z float64 "T" = Ok op
    /\ axesd op = [2; 0; 1] /\ dimsd op = [3; 4; 2]
    /\ Transpose.shape op = (24, 24)%Z.
Proof.
  destruct (@init_inverse_permutation (ListLike [2; 3; 4]) [1; -1; 0]%Z
              [1; 2; 0] float64 "T") as (op & Hinit & _).
  - reflexivity.
  - apply perm_120.
  - repeat constructor; unfold fits_int64, int64_max; lia.
  - exists op. split; [exact Hinit|].
    vm_compute in Hinit. injection Hinit as <-. repeat split.
Defined.

(** C8. For every valid Transpose operator the forward application
    reshapes the flat input of length [prod(dims)] to shape [dims],
    permutes its axes according to [axes] and flattens the result to length
    [prod(dimsd)]: the element at multi-index [J] of the output array of
    shape [dimsd] is the element of the input array of shape [dims] at the
    multi-index [I] with [I[axes[m]] = J[m]], that is [I[k] = J[axesd[k]]].
    For [dims = (2,3)], [axes = (1,0)] and [x = [0,1,2,3,4,5]] the output
    is [[0,3,1,4,2,5]]. *)
Theorem forward_reshape_permute_flatten :
  (forall (A : Type) (dflt : A) (dims0 : value_or_list_like)
          (axes0 : list Z) (dt : np_dtype) (nm : string) (op : t)
          (x : list A),
      __init__ dims0 axes0 dt nm = Ok op ->
      dims op <> [] ->
      is_perm (length (dims op)) (axes op) ->
      length x = prod (dims op) ->
      exists y,
        _matvec dflt op x = Ok y
        /\ length y = prod (dimsd op)
        /\ forall J, in_bounds J (dimsd op) ->
             nth (ravel_multi_index (dimsd op) J) y dflt
             = nth (ravel_multi_index (dims op) (gather J (axesd op))) x dflt)
  /\ (op <- __init__ (ListLike [2; 3]) [1; 0]%Z float64 "T" ;;
      _matvec 0 op [0; 1; 2; 3; 4; 5]) = Ok [0; 3; 1; 4; 2; 5].
Proof.
  split; [|reflexivity].
  intros A dflt dims0 axes0 dt nm op x Hinit _ Hp Hx.
  pose proof (@init_wf _ _ _ _ _ Hinit Hp) as Hwf. pose proof Hwf as [_ Hi Hd].
  eexists. split; [apply (matvec_wf dflt x Hwf Hx)|].
  split.
  - rewrite np_ravel_length. cbn [Numpy.shape]. now rewrite Hd.
  - intros J HJ. rewrite Hd in *.
    apply transposed_read with (n := length (dims op)); auto.
Qed.

Lemma forward_reshape_permute_flatten_witness :
  exists y,
    _matvec 0 op_234 (seq 0 24) = Ok y
    /\ length y = 24
    /\ nth (ravel_multi_index [3; 4; 2] [2; 3; 1]) y 0
       = nth (ravel_multi_index [2; 3; 4] [1; 2; 3]) (seq 0 24) 0.
Proof.
  assert (Hinit : __init__ (ListLike [2; 3; 4]) [1; -1; 0]%Z float64 "T"
                  = Ok op_234) by reflexivity.
  destruct (proj1 forward_reshape_permute_flatten nat 0 _ _ _ _ _
              (seq 0 24) Hinit) as (y & Hy & Hlen & Hnth).
  - discriminate.
  - apply perm_120.
  - reflexivity.
  - exists y. split; [exact Hy|]. split; [exact Hlen|].
    apply (Hnth [2; 3; 1]). repeat constructor.
Defined.

(** C9. For every successfully constructed Transpose operator
    [prod(dimsd)] equals [prod(dims)], so the operator's shape is square:
    both components of [shape] are the same number. *)
Theorem shape_is_square :
  forall (dims0 : value_or_list_like) (axes0 : list Z) (dt : np_dtype)
         (nm : string) (op : t),
    __init__ dims0 axes0 dt nm = Ok op ->
    prod (dimsd op) = prod (dims op)
    /\ np_prod (dimsd op) = np_prod (dims op)
    /\ fst (Transpose.shape op) = snd (Transpose.shape op).
Proof.
  intros dims0 axes0 dt nm op Hinit.
  pose proof (@init_dimsd_perm _ _ _ _ _ Hinit) as Hperm.
  apply init_inv in Hinit. cbv zeta in Hinit.
  destruct Hinit as (Hd & _ & _ & _ & _ & Hsh).
  rewrite Hsh, <- Hd. cbn [fst snd].
  auto using prod_perm, np_prod_perm.
Qed.

Lemma shape_is_square_witness :
  prod (dimsd op_234) = prod (dims op_234)
  /\ np_prod (dimsd op_234) = np_prod (dims op_234)
  /\ fst (Transpose.shape op_234) = snd (Transpose.shape op_234).
Proof.
  apply (@shape_is_square (ListLike [2; 3; 4]) [1; -1; 0]%Z float64 "T").
  reflexivity.
Defined.

(** C10. Constructing a Transpose operator with any axis index outside
    [[-len(dims), len(dims))] fails at construction time with the
    axis-normalisation error ([AxisError]), raised before the
    duplicate/missing-index check is reached. *)
Theorem axis_out_of_range_raises_AxisError :
  forall (dims0 : value_or_list_like) (axes0 : list Z) (dt : np_dtype)
         (nm : string),
    let ndims := Z.of_nat (length (_value_or_list_like_to_tuple dims0)) in
    Exists (fun ax => (ax < - ndims \/ ndims <= ax)%Z) axes0 ->
    __init__ dims0 axes0 dt nm = Raise AxisError.
Proof.
  intros dims0 axes0 dt nm ndims Hex. unfold __init__.
  rewrite mapM_normalize_out by exact Hex. reflexivity.
Qed.

Lemma axis_out_of_range_raises_AxisError_witness :
  __init__ (ListLike [3; 4]) [0; 0; 2]%Z float64 "T" = Raise AxisError.
Proof.
  apply axis_out_of_range_raises_AxisError.
  cbn. right. right. left. lia.
Defined.

(** The configuration error is raised exactly when the axes normalise and
    some direction of [range(len(dims))] is missing from them. *)
Lemma config_error_iff_missing (dims0 : value_or_list_like) (axes0 : list Z)
    (dt : np_dtype) (nm : string) :
  let n := length (_value_or_list_like_to_tuple dims0) in
  __init__ dims0 axes0 dt nm
  = Raise (ValueError "axes must contain each direction once")
  <-> exists p, mapM (fun ax => normalize_axis_index ax n) axes0 = Ok p
                /\ exists i, i < n /\ ~ In i p.
Proof.
  intros n. unfold __init__. fold n.
  destruct (mapM _ axes0) as [p|e] eqn:Hm; cbn [bind].
  2:{ apply mapM_normalize_exn in Hm. subst e.
      split; [discriminate | intros (p & [=] & _)]. }
  destruct (mapM_normalize_Ok _ _ Hm) as [_ Hlt].
  assert (Hincl : incl (np_unique p) (seq 0 n)).
  { intros a Ha. apply (proj1 (np_unique_In _ _)) in Ha. apply in_seq.
    specialize (Hlt a Ha). lia. }
  destruct (length (np_unique p) =? n) eqn:E; cbn [negb].
  - apply Nat.eqb_eq in E. split.
    + destruct (np_setitem _ p _) as [q|e] eqn:E1; cbn [bind];
        [|intros [= ->]; now apply np_setitem_exn in E1].
      destruct (as_int_array _) as [v|e] eqn:E2; cbn [bind];
        [|unfold as_int_array in E2; destruct (forallb _ _);
          [discriminate | injection E2 as <-; intros [=]]].
      destruct (np_setitem _ q v) as [dd|e] eqn:E3; cbn [bind];
        [intros [=]|].
      intros [= ->]. now apply np_setitem_exn in E3.
    + intros (p' & [= <-] & i & Hi & Hni). exfalso. apply Hni.
      apply (proj1 (np_unique_In p i)).
      apply (NoDup_length_incl (np_unique_NoDup p)
               (l' := seq 0 n)); auto.
      * rewrite length_seq. lia.
      * apply in_seq. lia.
  - apply Nat.eqb_neq in E. split; [intros _|reflexivity].
    exists p. split; [reflexivity|].
    destruct (Forall_Exists_dec (fun i => In i p)
                (fun i => in_dec Nat.eq_dec i p) (seq 0 n)) as [Hall|Hex].
    + exfalso. apply E.
      transitivity (length (seq 0 n)); [|apply length_seq].
      apply Permutation_length, NoDup_Permutation.
      * apply np_unique_NoDup.
      * apply seq_NoDup.
      * intros a. split; [apply Hincl|].
        intros Ha. apply (proj2 (np_unique_In p a)).
        rewrite Forall_forall in Hall. auto.
    + apply Exists_exists in Hex as (i & Hi & Hni).
      exists i. split; [apply in_seq in Hi; lia | exact Hni].
Qed.

(** C6. With [axes = (0, 0)] over [dims = (3, 4)] the construction fails
    with the configuration error.  But the check only counts the distinct
    axes: with more axes than dimensions a repeated axis is not reported.
    Over [dims = (3, 4)], [axes = (0, 1, 0)] gets past the check and the
    construction fails later, in the index assignment, with NumPy's
    shape-mismatch error; over [dims = (5,)], [axes = (0, 0, 0)] is
    accepted and an operator is built. *)
Theorem repeated_axes_not_rejected :
  __init__ (ListLike [3; 4]) [0; 0]%Z float64 "T"
  = Raise (ValueError "axes must contain each direction once")
  /\ __init__ (ListLike [3; 4]) [0; 1; 0]%Z float64 "T"
     = Raise (ValueError "shape mismatch: value array could not be broadcast to indexing result")
  /\ __init__ (ListLike [5]) [0; 0; 0]%Z float64 "T"
     = Ok {| dims := [5]; axes := [0; 0; 0]; axesd := [0]; dimsd := [5];
             Transpose.shape := (5, 5)%Z; dtype := float64;
             explicit := false; clinear := true; name := "T" |}
  /\ ~ NoDup [0; 0; 0].
Proof.
  repeat split.
  intros H. inversion H as [|? ? Hn _]. apply Hn. now left.
Qed.

End TransposeSpec.

(* ================================================================== *)
(** * Properties of [MatrixMult] *)

Module MatrixMultSpec.
Import Numpy NumpyFacts MatrixMult.

Section WithScalar.
Context {K : Type} `{ScalarLaws K}.

Add Ring Kring : scalar_ring.

(** ** Finite sums *)

Lemma sum_n_S (n : nat) (f : nat -> K) :
  sum_n (S n) f = sadd (sum_n n f) (f n).
Proof.
  unfold sum_n. rewrite seq_S, map_app. cbn [map Nat.add].
  induction (map f (seq 0 n)) as [|a l IH]; cbn [fold_right app].
  - ring.
  - rewrite IH. ring.
Qed.

Lemma sum_n_ext (n : nat) (f g : nat -> K) :
  (forall k, k < n -> f k = g k) -> sum_n n f = sum_n n g.
Proof.
  induction n as [|n IH]; intros Hfg; [reflexivity|].
  rewrite !sum_n_S, IH, Hfg by auto. reflexivity.
Qed.

Lemma sum_n_zero (n : nat) : sum_n n (fun _ => s0) = s0.
Proof.
  induction n as [|n IH]; [reflexivity|]. rewrite sum_n_S, IH. ring.
Qed.

Lemma sum_n_add (n : nat) (f g : nat -> K) :
  sum_n n (fun k => sadd (f k) (g k)) = sadd (sum_n n f) (sum_n n g).
Proof.
  induction n as [|n IH]; [cbn; ring|]. rewrite !sum_n_S, IH. ring.
Qed.

Lemma sum_n_scal_l (n : nat) (c : K) (f : nat -> K) :
  sum_n n (fun k => smul c (f k)) = smul c (sum_n n f).
Proof.
  induction n as [|n IH]; [cbn; ring|]. rewrite !sum_n_S, IH. ring.
Qed.

Lemma sum_n_scal_r (n : nat) (c : K) (f : nat -> K) :
  sum_n n (fun k => smul (f k) c) = smul (sum_n n f) c.
Proof.
  induction n as [|n IH]; [cbn; ring|]. rewrite !sum_n_S, IH. ring.
Qed.

Lemma sum_n_swap (n m : nat) (f : nat -> nat -> K) :
  sum_n n (fun i => sum_n m (fun k => f i k))
  = sum_n m (fun k => sum_n n (fun i => f i k)).
Proof.
  induction n as [|n IH].
  - cbn. symmetry. apply sum_n_zero.
  - rewrite sum_n_S, IH, <- sum_n_add.
    apply sum_n_ext. intros k _. now rewrite sum_n_S.
Qed.

Lemma sum_n_app (b P : nat) (f : nat -> K) :
  sum_n (b + P) f = sadd (sum_n b f) (sum_n P (fun p => f (b + p))).
Proof.
  induction P as [|P IHP].
  - rewrite Nat.add_0_r. cbn. ring.
  - rewrite Nat.add_succ_r, !sum_n_S, IHP. ring.
Qed.

(** A sum over [range(n * P)] read block by block. *)
Lemma sum_n_blocks (n P : nat) (f : nat -> K) :
  sum_n (n * P) f = sum_n n (fun i => sum_n P (fun p => f (i * P + p))).
Proof.
  induction n as [|n IH]; [reflexivity|].
  rewrite sum_n_S, <- IH. cbn [Nat.mul].
  rewrite Nat.add_comm. apply sum_n_app.
Qed.

Lemma sconj_zero : sconj s0 = s0.
Proof.
  assert (E : sadd (sconj s0) (sconj s0) = sconj s0).
  { rewrite <- sconj_add. f_equal. ring. }
  transitivity (ssub (sadd (sconj s0) (sconj s0)) (sconj s0)); [ring|].
  rewrite E. ring.
Qed.

Lemma sconj_sum_n (n : nat) (f : nat -> K) :
  sconj (sum_n n f) = sum_n n (fun k => sconj (f k)).
Proof.
  induction n as [|n IH]; [apply sconj_zero|].
  rewrite !sum_n_S, sconj_add, IH. reflexivity.
Qed.

(** The exchange of sums behind the adjoint identity. *)
Lemma adjoint_core (r c P : nat) (a : nat -> nat -> K) (y x : nat -> K) :
  sum_n (c * P)
    (fun o => smul (sum_n r (fun i => smul (a i (o / P)) (y (i * P + o mod P))))
                   (x o))
  = sum_n (r * P)
      (fun o => smul (y o)
                     (sum_n c (fun k => smul (a (o / P) k)
                                             (x (k * P + o mod P))))).
Proof.
  rewrite !sum_n_blocks.
  transitivity
    (sum_n c (fun k => sum_n P (fun p => sum_n r (fun i =>
       smul (smul (a i k) (y (i * P + p))) (x (k * P + p)))))).
  { apply sum_n_ext; intros k _. apply sum_n_ext; intros p Hp.
    rewrite Nat.div_add_l, Nat.div_small, Nat.add_0_r by lia.
    rewrite Nat.add_comm, Nat.Div0.mod_add, Nat.mod_small by lia.
    rewrite (Nat.add_comm p). symmetry. apply sum_n_scal_r. }
  transitivity
    (sum_n r (fun i => sum_n P (fun p => sum_n c (fun k =>
       smul (smul (a i k) (y (i * P + p))) (x (k * P + p)))))).
  { rewrite sum_n_swap.
    transitivity
      (sum_n P (fun p => sum_n r (fun i => sum_n c (fun k =>
         smul (smul (a i k) (y (i * P + p))) (x (k * P + p)))))).
    - apply sum_n_ext; intros p _. apply sum_n_swap.
    - apply sum_n_swap. }
  apply sum_n_ext; intros i _. apply sum_n_ext; intros p Hp.
  rewrite Nat.div_add_l, Nat.div_small, Nat.add_0_r by lia.
  rewrite Nat.add_comm, Nat.Div0.mod_add, Nat.mod_small by lia.
  rewrite (Nat.add_comm p), <- sum_n_scal_l.
  apply sum_n_ext; intros k _. ring.
Qed.

(** ** Matrices *)

Lemma mshape_T (M : matrix K) :
  mshape (T M) = (snd (mshape M), fst (mshape M)).
Proof. destruct M; reflexivity. Qed.

Lemma entry_T (M : matrix K) (i k : nat) : entry (T M) k i = entry M i k.
Proof.
  destruct M as [dt a|fmt dt r c coo]; cbn.
  - f_equal. lia.
  - induction coo as [|[[a b] v] coo IH]; cbn; [reflexivity|].
    rewrite IH, (andb_comm (b =? k)). reflexivity.
Qed.

Lemma entry_mconj (M : matrix K) (i k : nat) :
  entry (mconj M) i k = sconj (entry M i k).
Proof.
  destruct M as [dt a|fmt dt r c coo]; cbn.
  - unfold conj. rewrite <- sconj_zero at 1. apply map_nth.
  - induction coo as [|[[a b] v] coo IH]; cbn; [symmetry; apply sconj_zero|].
    rewrite IH. destruct (_ && _); [now rewrite sconj_add | reflexivity].
Qed.

Lemma mshape_mconj (M : matrix K) : mshape (mconj M) = mshape M.
Proof. destruct M; reflexivity. Qed.

(** ** The product along the first axis *)

Lemma nth_map_seq {B : Type} (g : nat -> B) (n o : nat) (d : B) :
  o < n -> nth o (map g (seq 0 n)) d = g o.
Proof.
  intros Ho. rewrite (nth_indep _ d (g 0)) by (now rewrite length_map, length_seq).
  rewrite map_nth, seq_nth by exact Ho. reflexivity.
Qed.

Lemma matmul_trailing_length (M : matrix K) (od : list nat) (x : list K) :
  length (matmul_trailing M od x) = fst (mshape M) * prod od.
Proof.
  unfold matmul_trailing. destruct (mshape M) as [r c].
  now rewrite length_map, length_seq.
Qed.

Lemma matmul_trailing_nth (M : matrix K) (od : list nat) (x : list K)
    (o : nat) :
  o < fst (mshape M) * prod od ->
  nth o (matmul_trailing M od x) s0
  = sum_n (snd (mshape M))
      (fun k => smul (entry M (o / prod od) k)
                     (nth (k * prod od + o mod prod od) x s0)).
Proof.
  unfold matmul_trailing. destruct (mshape M) as [r c]. cbn [fst snd].
  intros Ho. rewrite nth_map_seq by exact Ho.
  cbn [unravel_index hd tl]. apply sum_n_ext. intros k _.
  unfold ravel_multi_index. cbn [c_strides offset].
  fold (ravel_multi_index od (unravel_index od (o mod prod od))).
  rewrite ravel_unravel; [reflexivity|].
  apply Nat.mod_upper_bound. intros E. rewrite E in Ho. lia.
Qed.

Lemma conj_length (x : list K) : length (conj x) = length x.
Proof. apply length_map. Qed.

Lemma nth_conj (x : list K) (o : nat) :
  nth o (conj x) s0 = sconj (nth o x s0).
Proof. unfold conj. rewrite <- sconj_zero at 1. apply map_nth. Qed.

(** [conj(M @ conj(x)) = conj(M) @ x]. *)
Lemma conj_matmul_conj (M : matrix K) (od : list nat) (x : list K) :
  conj (matmul_trailing M od (conj x)) = matmul_trailing (mconj M) od x.
Proof.
  apply (nth_ext _ _ s0 s0).
  - now rewrite conj_length, !matmul_trailing_length, mshape_mconj.
  - intros o Ho. rewrite conj_length, matmul_trailing_length in Ho.
    rewrite nth_conj, !matmul_trailing_nth
      by (rewrite ?mshape_mconj; exact Ho).
    rewrite mshape_mconj, sconj_sum_n. apply sum_n_ext. intros k _.
    now rewrite sconj_mul, nth_conj, sconj_invol, entry_mconj.
Qed.

(** ** The two-dimensional product of the code *)

Lemma np_ravel_contiguous (a : ndarray K) :
  strides a = c_strides (Numpy.shape a) ->
  length (data a) = prod (Numpy.shape a) ->
  np_ravel s0 a = data a.
Proof.
  intros Hs Hl. apply (nth_ext _ _ s0 s0).
  - now rewrite np_ravel_length.
  - intros o Ho. rewrite np_ravel_length in Ho.
    rewrite np_ravel_nth by (rewrite ?Hs, ?c_strides_length; auto).
    rewrite Hs. fold (ravel_multi_index (Numpy.shape a)
                        (unravel_index (Numpy.shape a) o)).
    now rewrite ravel_unravel.
Qed.

Lemma blocks_length {B : Type} (g : nat -> nat -> B) (r P : nat) :
  length (flat_map (fun i => map (g i) (seq 0 P)) (seq 0 r)) = r * P.
Proof.
  rewrite (@flat_map_constant_length _ _ P).
  - now rewrite length_seq.
  - intros. now rewrite length_map, length_seq.
Qed.

Lemma blocks_nth {B : Type} (g : nat -> nat -> B) (r P o : nat) (d : B) :
  o < r * P ->
  nth o (flat_map (fun i => map (g i) (seq 0 P)) (seq 0 r)) d
  = g (o / P) (o mod P).
Proof.
  intros Ho. rewrite (@nth_flat_map_blocks _ _ P) by
    (auto; intros; now rewrite length_map, length_seq).
  apply nth_map_seq, Nat.mod_upper_bound. intros E. rewrite E in Ho. lia.
Qed.

(** [A.dot(X).ravel()] for [X = x.reshape(cols, prod(od))] is the
    product along the first axis of [x.reshape(cols, *od)]. *)
Lemma dot_mat_ravel (M : matrix K) (od : list nat) (x : list K) :
  length x = snd (mshape M) * prod od ->
  exists Y,
    dot_mat M {| data := x; Numpy.shape := [snd (mshape M); prod od];
                 strides := c_strides [snd (mshape M); prod od] |} = Ok Y
    /\ np_ravel s0 Y = matmul_trailing M od x
    /\ np_ravel s0 (nd_conj Y) = conj (matmul_trailing M od x).
Proof.
  intros Hx. unfold dot_mat. destruct (mshape M) as [r c] eqn:EM.
  cbn [fst snd Numpy.shape]. rewrite Nat.eqb_refl.
  eexists. split; [reflexivity|].
  assert (E : flat_map
                (fun i => map (fun j => sum_n c (fun k =>
                   smul (entry M i k)
                        (get2 {| data := x; Numpy.shape := [c; prod od];
                                 strides := c_strides [c; prod od] |} k j)))
                   (seq 0 (prod od))) (seq 0 r)
              = matmul_trailing M od x).
  { apply (nth_ext _ _ s0 s0).
    - now rewrite blocks_length, matmul_trailing_length, EM.
    - intros o Ho. rewrite blocks_length in Ho.
      rewrite blocks_nth, matmul_trailing_nth by (rewrite ?EM; exact Ho).
      rewrite EM. cbn [fst snd]. apply sum_n_ext. intros k _.
      unfold get2. cbn. do 2 f_equal. lia. }
  split.
  - rewrite np_ravel_contiguous; cbn [data Numpy.shape strides]; auto.
    rewrite blocks_length. cbn. lia.
  - rewrite np_ravel_contiguous; cbn [nd_conj data Numpy.shape strides];
      [now rewrite E|reflexivity|].
    rewrite conj_length, blocks_length. cbn. lia.
Qed.

(** ** Construction *)

Lemma matrix_init_inv (A0 : matrix K) (od0 : option value_or_list_like)
    (dt0 : np_dtype) (op : t K) (log : list string) :
  __init__ A0 od0 dt0 = Ok (op, log) ->
  A op = A0
  /\ complex_flag A0 = Ok (complex op)
  /\ dtype op = (if iscomplexobj A0 && negb (iscomplex_dtype dt0)
                 then mdtype A0 else dt0)
  /\ log = (if iscomplexobj A0 && negb (iscomplex_dtype dt0)
            then [String.append "Matrix A is a complex object, dtype cast to "
                                (dtype_name (mdtype A0))]
            else [])
  /\ match od0 with
     | None =>
         reshape op = false /\ otherdims op = None
         /\ dims op = Value (snd (mshape A0))
         /\ dimsd op = Value (fst (mshape A0))
         /\ MatrixMult.shape op
            = (Z.of_nat (fst (mshape A0)), Z.of_nat (snd (mshape A0)))
         /\ explicit op = true
     | Some v =>
         let od := _value_or_list_like_to_array v in
         reshape op = true /\ otherdims op = Some od
         /\ dims op = ListLike (snd (mshape A0) :: od)
         /\ dimsd op = ListLike (fst (mshape A0) :: od)
         /\ dimsflatten op = Some [Z.of_nat (snd (mshape A0)); np_prod od]
         /\ dimsdflatten op = Some [Z.of_nat (fst (mshape A0)); np_prod od]
         /\ MatrixMult.shape op
            = (np_prod (fst (mshape A0) :: od),
               np_prod (snd (mshape A0) :: od))
         /\ explicit op = false
     end.
Proof.
  unfold __init__. destruct (complex_flag A0) as [cx|e]; [|discriminate].
  cbn [bind]. destruct (mshape A0) as [r c]. cbn [fst snd].
  destruct od0 as [v|].
  - unfold np_array_int. destruct (forallb _ _);
      [|destruct (existsb _ _); discriminate].
    cbn [bind]. intros [= <- <-].
    destruct (iscomplexobj A0 && negb (iscomplex_dtype dt0));
      cbn; repeat split.
  - intros [= <- <-].
    destruct (iscomplexobj A0 && negb (iscomplex_dtype dt0));
      cbn; repeat split.
Qed.

Lemma matrix_init_Ok (A0 : matrix K) (od0 : option value_or_list_like)
    (dt0 : np_dtype) (cx : bool) :
  complex_flag A0 = Ok cx ->
  match od0 with
  | None => True
  | Some v => Forall fits_int64 (_value_or_list_like_to_array v)
  end ->
  exists op log, __init__ A0 od0 dt0 = Ok (op, log).
Proof.
  unfold __init__. intros ->. cbn [bind]. destruct (mshape A0) as [r c].
  destruct od0 as [v|]; intros Hf; [|eauto].
  unfold np_array_int.
  replace (forallb _ _) with true; [cbn [bind]; eauto|].
  symmetry. apply forallb_forall. intros d Hd.
  rewrite Forall_forall in Hf. apply Z.leb_le, Hf, Hd.
Qed.

(** ** Forward and adjoint as products along the first axis *)

Lemma size_of_dims (A0 : matrix K) (od0 : option value_or_list_like)
    (dt0 : np_dtype) (op : t K) (log : list string) :
  __init__ A0 od0 dt0 = Ok (op, log) ->
  size_of (dims op) = snd (mshape A0) * prod (trailing op)
  /\ size_of (dimsd op) = fst (mshape A0) * prod (trailing op).
Proof.
  intros Hi. apply matrix_init_inv in Hi. destruct Hi as (_ & _ & _ & _ & Hi).
  unfold trailing, size_of. destruct od0 as [v|].
  - cbv zeta in Hi. destruct Hi as (_ & -> & -> & -> & _). split; reflexivity.
  - destruct Hi as (_ & -> & -> & -> & _). split; reflexivity.
Qed.

Lemma matvec_init (A0 : matrix K) (od0 : option value_or_list_like)
    (dt0 : np_dtype) (op : t K) (log : list string) (x : list K) :
  __init__ A0 od0 dt0 = Ok (op, log) ->
  fits_int64 (prod (trailing op)) ->
  length x = size_of (dims op) ->
  _matvec op x = Ok (matmul_trailing A0 (trailing op) x).
Proof.
  intros Hi Hfit Hx.
  rewrite (proj1 (@size_of_dims _ _ _ _ _ Hi)) in Hx.
  apply matrix_init_inv in Hi. destruct Hi as (HA & _ & _ & _ & Hi).
  unfold _matvec, trailing in *. rewrite HA. destruct od0 as [v|].
  - cbv zeta in Hi. destruct Hi as (-> & Hod & _ & _ & -> & _).
    rewrite Hod in *. cbn [attr bind].
    rewrite np_prod_fits, np_reshape_int_nonneg by exact Hfit.
    unfold np_reshape. replace (length x =? _) with true
      by (symmetry; apply Nat.eqb_eq; cbn; lia).
    cbn [bind].
    destruct (dot_mat_ravel A0 (_value_or_list_like_to_array v) x Hx)
      as (Y & -> & HY & _).
    cbn [bind]. now rewrite HY.
  - destruct Hi as (-> & Hod & _). rewrite Hod in *.
    unfold dot_vec, matmul_trailing. destruct (mshape A0) as [r c].
    cbn [fst snd prod fold_right] in *.
    replace (length x =? c) with true by (symmetry; apply Nat.eqb_eq; lia).
    f_equal. rewrite Nat.mul_1_r. apply map_ext. intros i.
    cbn [unravel_index hd tl prod fold_right]. rewrite Nat.div_1_r.
    apply sum_n_ext. intros k _. do 2 f_equal. cbn. lia.
Qed.

Lemma rmatvec_init (A0 : matrix K) (od0 : option value_or_list_like)
    (dt0 : np_dtype) (op : t K) (log : list string) (x : list K) :
  __init__ A0 od0 dt0 = Ok (op, log) ->
  fits_int64 (prod (trailing op)) ->
  length x = size_of (dimsd op) ->
  _rmatvec op x
  = Ok (if complex op
        then conj (matmul_trailing (T A0) (trailing op) (conj x))
        else matmul_trailing (T A0) (trailing op) x).
Proof.
  intros Hi Hfit Hx.
  rewrite (proj2 (@size_of_dims _ _ _ _ _ Hi)) in Hx.
  apply matrix_init_inv in Hi. destruct Hi as (HA & _ & _ & _ & Hi).
  unfold _rmatvec, trailing in *. rewrite HA.
  assert (HT : snd (mshape (T A0)) = fst (mshape A0))
    by (now rewrite mshape_T).
  destruct od0 as [v|].
  - cbv zeta in Hi. destruct Hi as (-> & Hod & _ & _ & _ & -> & _).
    rewrite Hod in *. cbn [attr bind].
    rewrite np_prod_fits, np_reshape_int_nonneg by exact Hfit.
    unfold np_reshape. replace (length x =? _) with true
      by (symmetry; apply Nat.eqb_eq; cbn; lia).
    cbn [bind]. rewrite <- HT in *.
    destruct (complex op).
    + destruct (dot_mat_ravel (T A0) (_value_or_list_like_to_array v)
                  (conj x)) as (Y & HY & _ & HYc);
        [now rewrite conj_length|].
      unfold nd_conj at 1. cbn [data Numpy.shape strides].
      rewrite HY. cbn [bind]. now rewrite HYc.
    + destruct (dot_mat_ravel (T A0) (_value_or_list_like_to_array v) x Hx)
        as (Y & -> & HY & _).
      cbn [bind]. now rewrite HY.
  - destruct Hi as (-> & Hod & _). rewrite Hod in *.
    assert (Hvec : forall z, length z = fst (mshape A0) ->
              dot_vec (T A0) z = Ok (matmul_trailing (T A0) [] z)).
    { intros z Hz. unfold dot_vec, matmul_trailing.
      rewrite mshape_T. destruct (mshape A0) as [r c].
      cbn [fst snd prod fold_right] in *.
      replace (length z =? r) with true by (symmetry; apply Nat.eqb_eq; lia).
      f_equal. rewrite Nat.mul_1_r. apply map_ext. intros i.
      cbn [unravel_index hd tl prod fold_right]. rewrite Nat.div_1_r.
      apply sum_n_ext. intros k _. do 2 f_equal. cbn. lia. }
    cbn [prod fold_right] in Hx.
    destruct (complex op).
    + rewrite Hvec by (rewrite conj_length; lia). reflexivity.
    + apply Hvec. lia.
Qed.

Lemma matmul_trailing_multi (M : matrix K) (od : list nat) (x : list K)
    (i : nat) (J : list nat) :
  i < fst (mshape M) -> in_bounds J od ->
  nth (ravel_multi_index (fst (mshape M) :: od) (i :: J))
      (matmul_trailing M od x) s0
  = sum_n (snd (mshape M))
      (fun k => smul (entry M i k)
                     (nth (ravel_multi_index (snd (mshape M) :: od) (k :: J))
                          x s0)).
Proof.
  intros Hi HJ. pose proof (ravel_lt HJ) as Hlt.
  unfold ravel_multi_index in *. cbn [c_strides offset].
  rewrite matmul_trailing_nth by nia.
  rewrite Nat.div_add_l, Nat.div_small, Nat.add_0_r by lia.
  rewrite Nat.add_comm, Nat.Div0.mod_add, Nat.mod_small by lia.
  reflexivity.
Qed.

(** The two sides of the adjoint identity, for a vector [u] whose
    entries, seen through [phi], are the columns of the matrix applied to
    [yy]. *)
Lemma adjoint_sums (M : matrix K) (od : list nat) (x u : list K)
    (phi : K -> K) (yy : nat -> K) :
  (forall o, o < snd (mshape M) * prod od ->
     phi (nth o u s0)
     = sum_n (fst (mshape M))
         (fun i => smul (entry M i (o / prod od))
                        (yy (i * prod od + o mod prod od)))) ->
  sum_n (snd (mshape M) * prod od)
    (fun o => smul (phi (nth o u s0)) (nth o x s0))
  = sum_n (fst (mshape M) * prod od)
      (fun o => smul (yy o) (nth o (matmul_trailing M od x) s0)).
Proof.
  intros Hu.
  rewrite (sum_n_ext _ _ (fun o Ho => f_equal (fun z => smul z _) (Hu o Ho))).
  rewrite (adjoint_core _ _ _ (entry M) yy (fun o => nth o x s0)).
  apply sum_n_ext. intros o Ho. now rewrite matmul_trailing_nth.
Qed.

(** ** The claims about [MatrixMult] *)

(** C4. For every MatrixMult operator and every flat forward input [x]
    of length [prod(dims)] (the extra extents multiplying to a 64-bit
    value): with [otherdims] the input is taken as an array of shape
    [(cols(A), *otherdims)], the result is [A @ x] along the first axis
    and it is flattened to length [prod(dimsd)]; without [otherdims] the
    result is [A @ x].  Element [(i, J)] of the output is the sum over
    [k] of [A[i, k] * x[k, J]].  For [A = [[1,2],[3,4]]],
    [_matvec([1,1]) = [3,7]]. *)
Theorem forward_is_matrix_product :
  (forall (A0 : matrix K) (od0 : option value_or_list_like)
          (dt0 : np_dtype) (op : t K) (log : list string) (x : list K),
      __init__ A0 od0 dt0 = Ok (op, log) ->
      fits_int64 (prod (trailing op)) ->
      length x = size_of (dims op) ->
      exists v,
        _matvec op x = Ok v
        /\ v = matmul_trailing A0 (trailing op) x
        /\ length v = size_of (dimsd op)
        /\ forall i J,
             i < fst (mshape A0) -> in_bounds J (trailing op) ->
             nth (ravel_multi_index (fst (mshape A0) :: trailing op) (i :: J))
                 v s0
             = sum_n (snd (mshape A0))
                 (fun k =>
                    smul (entry A0 i k)
                         (nth (ravel_multi_index
                                 (snd (mshape A0) :: trailing op) (k :: J))
                              x s0)))
  /\ (m <- __init__ A_1234 None float64 ;; _matvec (fst m) [1; 1]%Z)
     = Ok [3; 7]%Z.
Proof.
  split; [|reflexivity].
  intros A0 od0 dt0 op log x Hi Hfit Hx.
  exists (matmul_trailing A0 (trailing op) x).
  split; [eapply matvec_init; eassumption|]. split; [reflexivity|]. split.
  - rewrite matmul_trailing_length.
    now rewrite (proj2 (@size_of_dims _ _ _ _ _ Hi)).
  - intros i J Hlt HJ. now apply matmul_trailing_multi.
Qed.

(** ** The [complex] attribute *)

Lemma complex_flag_cases (A0 : matrix K) (cx : bool) :
  complex_flag A0 = Ok cx ->
  cx = iscomplexobj A0
  \/ (cx = false /\ exists dt r c coo, A0 = Sparse LIL dt r c coo).
Proof.
  destruct A0 as [dt a|fmt dt r c coo]; cbn.
  - intros [= <-]. now left.
  - destruct fmt; cbn; try discriminate; intros [= <-];
      try (now left).
    right. eauto 10.
Qed.

Lemma complex_attr_of_init (A0 : matrix K) (od0 : option value_or_list_like)
    (dt0 : np_dtype) (op : t K) (log : list string) :
  __init__ A0 od0 dt0 = Ok (op, log) ->
  complex op = iscomplexobj A0
  \/ (complex op = false /\ exists dt r c coo, A0 = Sparse LIL dt r c coo).
Proof.
  intros Hi. apply matrix_init_inv in Hi. destruct Hi as (_ & Hc & _).
  now apply complex_flag_cases.
Qed.

(** X19. What [_rmatvec] computes follows the [complex] attribute: for
    every operator and every input [x] of length [prod(dimsd)] (the extra
    extents multiplying to a 64-bit value) it returns
    [conj(A^T @ conj(x))], which is [conj(A^T) @ x], when the attribute
    is set and [A^T @ x] when it is not, flattened to length
    [prod(dims)]; and the attribute is [np.iscomplexobj(A)] for every
    matrix but a LIL matrix, for which it is never set. *)
Theorem adjoint_product_follows_complex_attribute :
  forall (A0 : matrix K) (od0 : option value_or_list_like)
         (dt0 : np_dtype) (op : t K) (log : list string) (x : list K),
    __init__ A0 od0 dt0 = Ok (op, log) ->
    fits_int64 (prod (trailing op)) ->
    length x = size_of (dimsd op) ->
    exists u,
      _rmatvec op x = Ok u
      /\ u = (if complex op
              then conj (matmul_trailing (T A0) (trailing op) (conj x))
              else matmul_trailing (T A0) (trailing op) x)
      /\ (complex op = true ->
          u = matmul_trailing (mconj (T A0)) (trailing op) x)
      /\ length u = size_of (dims op)
      /\ (forall k J,
             k < snd (mshape A0) -> in_bounds J (trailing op) ->
             nth (ravel_multi_index (snd (mshape A0) :: trailing op) (k :: J))
                 u s0
             = if complex op then
                 sconj (sum_n (fst (mshape A0))
                          (fun i =>
                             smul (entry A0 i k)
                                  (sconj
                                     (nth (ravel_multi_index
                                             (fst (mshape A0) :: trailing op)
                                             (i :: J)) x s0))))
               else
                 sum_n (fst (mshape A0))
                   (fun i =>
                      smul (entry A0 i k)
                           (nth (ravel_multi_index
                                   (fst (mshape A0) :: trailing op) (i :: J))
                                x s0)))
      /\ (complex op = iscomplexobj A0
          \/ (complex op = false
              /\ exists dt r c coo, A0 = Sparse LIL dt r c coo)).
Proof.
  intros A0 od0 dt0 op log x Hi Hfit Hx.
  pose proof (@rmatvec_init _ _ _ _ _ x Hi Hfit Hx) as Hr.
  pose proof (@size_of_dims _ _ _ _ _ Hi) as [Hsz _].
  pose proof (@complex_attr_of_init _ _ _ _ _ Hi) as Hc.
  assert (HT1 : fst (mshape (T A0)) = snd (mshape A0))
    by (now rewrite mshape_T).
  assert (HT2 : snd (mshape (T A0)) = fst (mshape A0))
    by (now rewrite mshape_T).
  eexists. split; [exact Hr|]. split; [reflexivity|].
  split; [intros ->; apply conj_matmul_conj|]. split; [|split; [|exact Hc]].
  - destruct (complex op);
      rewrite ?conj_length, matmul_trailing_length, HT1; now rewrite Hsz.
  - intros k J Hk HJ. rewrite <- HT1, <- HT2 in *.
    destruct (complex op).
    + rewrite nth_conj, matmul_trailing_multi by assumption.
      f_equal. apply sum_n_ext. intros i _.
      now rewrite entry_T, nth_conj.
    + rewrite matmul_trailing_multi by assumption.
      apply sum_n_ext. intros i _. now rewrite entry_T.
Qed.

(** X20. The adjoint identity holds as soon as the [complex] attribute
    is sound (an operator whose attribute is not set holds real entries):
    for [x] of length [prod(dims)] and [y] of length [prod(dimsd)] (the
    extra extents multiplying to a 64-bit value), both products return
    and [vdot(_rmatvec(y), x) == vdot(y, _matvec(x))] in exact
    arithmetic, [np.vdot] being the inner product that conjugates its
    first argument; when the attribute is not set the plain [np.dot]
    satisfies the identity too.  The attribute is sound for every dense
    array and every sparse matrix other than LIL whose real element type
    holds real numbers. *)
Theorem adjoint_identity_for_sound_complex_attribute :
  (forall (A0 : matrix K) (od0 : option value_or_list_like)
          (dt0 : np_dtype) (op : t K) (log : list string) (x y : list K),
      __init__ A0 od0 dt0 = Ok (op, log) ->
      complex_attr_sound op ->
      fits_int64 (prod (trailing op)) ->
      length x = size_of (dims op) ->
      length y = size_of (dimsd op) ->
      exists u v,
        _rmatvec op y = Ok u
        /\ _matvec op x = Ok v
        /\ (exists s, np_vdot u x = Ok s /\ np_vdot y v = Ok s)
        /\ (complex op = false ->
            exists s, np_dot u x = Ok s /\ np_dot y v = Ok s))
  /\ (forall (A0 : matrix K) (od0 : option value_or_list_like)
             (dt0 : np_dtype) (op : t K) (log : list string),
         __init__ A0 od0 dt0 = Ok (op, log) ->
         well_typed A0 ->
         (forall dt r c coo, A0 <> Sparse LIL dt r c coo) ->
         complex_attr_sound op).
Proof.
  split.
  - intros A0 od0 dt0 op log x y Hi Hwt Hfit Hx Hy.
    pose proof (@rmatvec_init _ _ _ _ _ y Hi Hfit Hy) as Hr.
    pose proof (@matvec_init _ _ _ _ _ x Hi Hfit Hx) as Hm.
    pose proof (@size_of_dims _ _ _ _ _ Hi) as [Hsx Hsy].
    pose proof (@matrix_init_inv _ _ _ _ _ Hi) as (HA & _).
    unfold complex_attr_sound in Hwt. rewrite HA in Hwt.
    rewrite Hsx in Hx. rewrite Hsy in Hy.
    set (od := trailing op) in *.
    assert (HT1 : fst (mshape (T A0)) = snd (mshape A0))
      by (now rewrite mshape_T).
    assert (HT2 : snd (mshape (T A0)) = fst (mshape A0))
      by (now rewrite mshape_T).
    eexists. exists (matmul_trailing A0 od x).
    split; [exact Hr|]. split; [exact Hm|].
    assert (Hlu : length (if complex op
                          then conj (matmul_trailing (T A0) od (conj y))
                          else matmul_trailing (T A0) od y)
                  = snd (mshape A0) * prod od).
    { destruct (complex op);
        now rewrite ?conj_length, matmul_trailing_length, HT1. }
    split.
    + unfold np_vdot. rewrite Hlu, Hx, Hy, matmul_trailing_length.
      rewrite !Nat.eqb_refl. eexists. split; [|reflexivity]. f_equal.
      apply (@adjoint_sums A0 od x _ sconj (fun o => sconj (nth o y s0))).
      intros o Ho. destruct (complex op) eqn:Ecx.
      * rewrite nth_conj, sconj_invol, matmul_trailing_nth
          by (rewrite HT1; exact Ho).
        rewrite HT2. apply sum_n_ext. intros i _.
        now rewrite entry_T, nth_conj.
      * rewrite matmul_trailing_nth by (rewrite HT1; exact Ho).
        rewrite HT2, sconj_sum_n. apply sum_n_ext. intros i _.
        now rewrite sconj_mul, entry_T, (Hwt eq_refl).
    + intros Ecx. rewrite Ecx in *. unfold np_dot.
      rewrite Hlu, Hx, Hy, matmul_trailing_length.
      rewrite !Nat.eqb_refl. eexists. split; [|reflexivity]. f_equal.
      apply (@adjoint_sums A0 od x _ (fun z => z) (fun o => nth o y s0)).
      intros o Ho. rewrite matmul_trailing_nth by (rewrite HT1; exact Ho).
      rewrite HT2. apply sum_n_ext. intros i _. now rewrite entry_T.
  - intros A0 od0 dt0 op log Hi Hwt Hlil Hcx.
    pose proof (@matrix_init_inv _ _ _ _ _ Hi) as (HA & _).
    rewrite HA.
    destruct (@complex_attr_of_init _ _ _ _ _ Hi)
      as [Hc|(_ & dt & r & c & coo & E)].
    + apply Hwt. now rewrite <- Hc.
    + exfalso. exact (Hlil _ _ _ _ E).
Qed.


End WithScalar.

(** ** Instances and examples *)

#[export] Instance Z_ScalarLaws : @ScalarLaws Z _.
Proof.
  split.
  - exact Zth.
  - reflexivity.
  - reflexivity.
  - reflexivity.
Qed.

#[export] Instance GaussZ_ScalarLaws : @ScalarLaws GaussZ _.
Proof.
  split.
  - constructor; repeat intros [? ?];
      cbv [sadd smul ssub sopp s0 s1 GaussZ_Scalar fst snd]; f_equal; ring.
  - intros [? ?] [? ?]; cbv [sadd sconj GaussZ_Scalar fst snd]; f_equal; ring.
  - intros [? ?] [? ?]; cbv [smul sconj GaussZ_Scalar fst snd]; f_equal; ring.
  - intros [? ?]; cbv [sconj GaussZ_Scalar fst snd]; f_equal; ring.
Qed.

Lemma forward_is_matrix_product_witness :
  exists v : list Z,
    (m <- __init__ A_1234 (Some (ListLike [2; 1])) float64 ;;
     _matvec (fst m) [1; 10; 1; 100]%Z) = Ok v
    /\ v = [3; 210; 7; 430]%Z
    /\ length v = 4.
Proof.
  destruct (__init__ A_1234 (Some (ListLike [2; 1])) float64)
    as [[op log]|] eqn:Hi; [|discriminate].
  destruct (proj1 (@forward_is_matrix_product Z _ _) A_1234
              (Some (ListLike [2; 1])) float64 op log
              [1; 10; 1; 100]%Z Hi) as (v & Hv & Hspec & Hlen & _).
  - injection Hi as <- _. unfold fits_int64, int64_max. cbn. lia.
  - injection Hi as <- _. reflexivity.
  - exists v. cbn [bind fst]. split; [exact Hv|].
    injection Hi as <- _. split; [rewrite Hspec; reflexivity | exact Hlen].
Defined.

(** A complex matrix [[[i, 1], [2, 1+i], [0, 3-i]]] over the Gaussian
    integers. *)
Lemma adjoint_product_follows_complex_attribute_witness :
  exists u : list GaussZ,
    (m <- __init__ A_c32 None float64 ;;
     _rmatvec (fst m) [(1, 1); (2, 0); (0, -1)]%Z) = Ok u
    /\ u = matmul_trailing (mconj (T A_c32)) [] [(1, 1); (2, 0); (0, -1)]%Z
    /\ u = [(5, -1); (4, -4)]%Z.
Proof.
  destruct (__init__ A_c32 None float64) as [[op log]|] eqn:Hi;
    [|discriminate].
  destruct (@adjoint_product_follows_complex_attribute GaussZ _ _
              A_c32 None float64 op log [(1, 1); (2, 0); (0, -1)]%Z Hi)
    as (u & Hu & Hspec & Hherm & _).
  - injection Hi as <- _. unfold fits_int64, int64_max. cbn. lia.
  - injection Hi as <- _. reflexivity.
  - exists u. cbn [bind fst]. split; [exact Hu|].
    injection Hi as <- _. split; [apply Hherm; reflexivity|].
    rewrite Hspec. reflexivity.
Defined.

Lemma adjoint_identity_for_sound_complex_attribute_witness :
  (exists (u v : list GaussZ) (s : GaussZ),
      (m <- __init__ A_c32 None float64 ;;
       _rmatvec (fst m) [(1, 1); (2, 0); (0, -1)]%Z) = Ok u
      /\ (m <- __init__ A_c32 None float64 ;;
          _matvec (fst m) [(1, -1); (0, 2)]%Z) = Ok v
      /\ np_vdot u [(1, -1); (0, 2)]%Z = Ok s
      /\ np_vdot [(1, 1); (2, 0); (0, -1)]%Z v = Ok s)
  /\ (exists (u v : list Z) (s : Z),
         (m <- __init__ S_1234 (Some (ListLike [2; 1])) float64 ;;
          _rmatvec (fst m) [1; 0; -2; 5]%Z) = Ok u
         /\ (m <- __init__ S_1234 (Some (ListLike [2; 1])) float64 ;;
             _matvec (fst m) [1; 10; 1; 100]%Z) = Ok v
         /\ np_dot u [1; 10; 1; 100]%Z = Ok s
         /\ np_dot [1; 0; -2; 5]%Z v = Ok s).
Proof.
  split.
  - destruct (__init__ A_c32 None float64) as [[op log]|] eqn:Hi;
      [|discriminate].
    destruct (proj1 (@adjoint_identity_for_sound_complex_attribute
                       GaussZ _ _) A_c32 None float64
                op log [(1, -1); (0, 2)]%Z [(1, 1); (2, 0); (0, -1)]%Z Hi)
      as (u & v & Hu & Hv & (s & Hs1 & Hs2) & _).
    + injection Hi as <- _. intros E. discriminate E.
    + injection Hi as <- _. unfold fits_int64, int64_max. cbn. lia.
    + injection Hi as <- _. reflexivity.
    + injection Hi as <- _. reflexivity.
    + exists u, v, s. cbn [bind fst]. auto.
  - destruct (__init__ S_1234 (Some (ListLike [2; 1])) float64)
      as [[op log]|] eqn:Hi; [|discriminate].
    assert (Hsound : complex_attr_sound op).
    { apply (proj2 (@adjoint_identity_for_sound_complex_attribute Z _ _)
               S_1234 (Some (ListLike [2; 1])) float64 op log Hi).
      - intros _ i k. reflexivity.
      - intros dt r c coo E. discriminate E. }
    destruct (proj1 (@adjoint_identity_for_sound_complex_attribute Z _ _)
                S_1234 (Some (ListLike [2; 1])) float64
                op log [1; 10; 1; 100]%Z [1; 0; -2; 5]%Z Hi Hsound)
      as (u & v & Hu & Hv & _ & Hdot).
    + injection Hi as <- _. unfold fits_int64, int64_max. cbn. lia.
    + injection Hi as <- _. reflexivity.
    + injection Hi as <- _. reflexivity.
    + destruct Hdot as (s & Hs1 & Hs2); [injection Hi as <- _; reflexivity|].
      exists u, v, s. cbn [bind fst]. auto.
Defined.


(** C3. The adjoint of a complex matrix is not always conjugated.  The
    [complex] attribute of a sparse matrix is read from [A.data], and the
    [data] of a LIL matrix is an array of Python lists: for the complex
    LIL matrix [[[i, 1], [2, 1+i], [0, 3-i]]] the attribute is not set
    (while the dtype is upcast to the complex type of the matrix), and
    [_rmatvec([1+i, 2, -i])] returns [A^T @ x = [3+i, 2]], where the
    Hermitian transpose applied to [x], which the dense array of the same
    shape and entries gets, is [[5-i, 4-4i]]. *)
Theorem complex_lil_adjoint_is_not_conjugated :
  iscomplexobj L_c32 = true
  /\ mshape L_c32 = mshape A_c32
  /\ map (fun i => map (entry L_c32 i) (seq 0 2)) (seq 0 3)
     = map (fun i => map (entry A_c32 i) (seq 0 2)) (seq 0 3)
  /\ exists op log,
       __init__ L_c32 None float64 = Ok (op, log)
       /\ complex op = false
       /\ dtype op = complex128
       /\ _rmatvec op [(1, 1); (2, 0); (0, -1)]%Z = Ok [(3, 1); (2, 0)]%Z
       /\ matmul_trailing (T L_c32) [] [(1, 1); (2, 0); (0, -1)]%Z
          = [(3, 1); (2, 0)]%Z
       /\ matmul_trailing (mconj (T L_c32)) [] [(1, 1); (2, 0); (0, -1)]%Z
          = [(5, -1); (4, -4)]%Z
       /\ (m <- __init__ A_c32 None float64 ;;
           _rmatvec (fst m) [(1, 1); (2, 0); (0, -1)]%Z)
          = Ok [(5, -1); (4, -4)]%Z.
Proof.
  split; [reflexivity|]. split; [reflexivity|]. split; [reflexivity|].
  do 2 eexists. repeat split.
Qed.

(** C2. The adjoint identity fails for a complex LIL matrix: its
    [complex] attribute is not set, [_rmatvec] does not conjugate, and
    for [A = [[i, 1], [2, 1+i], [0, 3-i]]], [x = [1-i, 2i]] and
    [y = [1+i, 2, -i]] the two sides are
    [vdot(_rmatvec(y), x) = 2] and [vdot(y, _matvec(x)) = -2+4i].  For
    the dense array of the same entries the forward product is the same
    and the two sides agree. *)
Theorem complex_lil_breaks_adjoint_identity :
  exists op log u v,
    __init__ L_c32 None float64 = Ok (op, log)
    /\ complex op = false
    /\ _rmatvec op [(1, 1); (2, 0); (0, -1)]%Z = Ok u
    /\ _matvec op [(1, -1); (0, 2)]%Z = Ok v
    /\ np_vdot u [(1, -1); (0, 2)]%Z = Ok (2, 0)%Z
    /\ np_vdot [(1, 1); (2, 0); (0, -1)]%Z v = Ok (-2, 4)%Z
    /\ (2, 0)%Z <> (-2, 4)%Z
    /\ exists op' log' u' v' s,
         __init__ A_c32 None float64 = Ok (op', log')
         /\ _rmatvec op' [(1, 1); (2, 0); (0, -1)]%Z = Ok u'
         /\ _matvec op' [(1, -1); (0, 2)]%Z = Ok v'
         /\ v' = v
         /\ np_vdot u' [(1, -1); (0, 2)]%Z = Ok s
         /\ np_vdot [(1, 1); (2, 0); (0, -1)]%Z v' = Ok s.
Proof.
  do 4 eexists. repeat split; try discriminate.
  do 5 eexists. repeat split.
Qed.

End MatrixMultSpec.

(* ================================================================== *)
(** * Further properties of [Transpose] *)

Module TransposeExtra.
Import Numpy NumpyFacts Transpose TransposeSpec.

(** ** The attributes of a constructed operator *)

Lemma init_record (dims0 : value_or_list_like) (axes0 : list Z)
    (dt : np_dtype) (nm : string) (op : t) :
  __init__ dims0 axes0 dt nm = Ok op ->
  op = {| dims := _value_or_list_like_to_tuple dims0;
          axes := axes op; axesd := axesd op; dimsd := dimsd op;
          Transpose.shape :=
            (np_prod (dimsd op),
             np_prod (_value_or_list_like_to_tuple dims0));
          dtype := dt; explicit := false; clinear := true; name := nm |}
  /\ Forall fits_int64 (_value_or_list_like_to_tuple dims0).
Proof.
  unfold __init__. intros H. inv_bind H.
  destruct (negb _); [discriminate|].
  inv_bind H. inv_bind H. inv_bind H. injection H as <-. cbn.
  split; [reflexivity|].
  unfold as_int_array in Ha1.
  destruct (forallb _ _) eqn:E; [|discriminate].
  apply Forall_forall. intros d Hd.
  apply Z.leb_le. revert d Hd. apply forallb_forall, E.
Qed.

Lemma adjoint_op_wf (op : t) : wf op -> wf (adjoint_op op).
Proof.
  intros Hwf. pose proof Hwf as [Hp Hi Hd].
  pose proof (dimsd_length Hwf) as Hl.
  constructor; cbn [adjoint_op dims axes axesd dimsd]; rewrite ?Hl.
  - apply (inverse_of_perm Hp Hi).
  - apply (inverse_of_sym Hp Hi).
  - symmetry. apply (dimsd_axesd Hwf).
Qed.

Lemma np_ravel_c_contiguous {A : Type} (dflt : A) (x : list A)
    (s : list nat) :
  length x = prod s ->
  np_ravel dflt {| data := x; Numpy.shape := s; strides := c_strides s |} = x.
Proof.
  intros Hl. apply (nth_ext _ _ dflt dflt).
  - now rewrite np_ravel_length.
  - intros o Ho. rewrite np_ravel_length in Ho. cbn [Numpy.shape] in Ho.
    rewrite np_ravel_nth; cbn [Numpy.shape strides data]; auto.
    + fold (ravel_multi_index s (unravel_index s o)).
      now rewrite ravel_unravel.
    + apply c_strides_length.
Qed.

Section Apply.
Context {A : Type} (dflt : A).

(** X1. The other round trip: for a valid operator and every flat [y] of
    length [prod(dimsd)], the forward applied to the adjoint of [y]
    returns [y]; with the round trip in the other direction, the forward
    and the adjoint are inverse bijections. *)
Theorem forward_of_adjoint_is_identity :
  forall (dims0 : value_or_list_like) (axes0 : list Z) (dt : np_dtype)
         (nm : string) (op : t) (y : list A),
    __init__ dims0 axes0 dt nm = Ok op ->
    is_perm (length (dims op)) (axes op) ->
    length y = prod (dimsd op) ->
    (x <- _rmatvec dflt op y ;; _matvec dflt op x) = Ok y.
Proof.
  intros dims0 axes0 dt nm op y Hinit Hp Hy.
  pose proof (@init_wf _ _ _ _ _ Hinit Hp) as Hwf.
  apply (@roundtrip_wf A dflt (adjoint_op op) y (adjoint_op_wf Hwf) Hy).
Qed.

(** X2. A valid operator accepts exactly the inputs of length
    [prod(dims)]: the forward returns for them, and any other length is
    refused by [reshape] with a [ValueError]; nothing is truncated or
    padded. *)
Theorem forward_accepts_exactly_prod_dims :
  forall (dims0 : value_or_list_like) (axes0 : list Z) (dt : np_dtype)
         (nm : string) (op : t) (x : list A),
    __init__ dims0 axes0 dt nm = Ok op ->
    is_perm (length (dims op)) (axes op) ->
    ((exists y, _matvec dflt op x = Ok y) <-> length x = prod (dims op))
    /\ (length x <> prod (dims op) ->
        _matvec dflt op x = Raise (ValueError "cannot reshape array")).
Proof.
  intros dims0 axes0 dt nm op x Hinit Hp.
  pose proof (@init_wf _ _ _ _ _ Hinit Hp) as Hwf.
  assert (Hbad : length x <> prod (dims op) ->
                 _matvec dflt op x = Raise (ValueError "cannot reshape array")).
  { intros Hne. unfold _matvec, np_reshape.
    apply Nat.eqb_neq in Hne. now rewrite Hne. }
  split; [split|exact Hbad].
  - intros [y Hy]. destruct (Nat.eq_dec (length x) (prod (dims op))); auto.
    rewrite Hbad in Hy by assumption. discriminate.
  - intros Hx. eexists. apply (matvec_wf dflt x Hwf Hx).
Qed.

(** X3. With the identity permutation [axes = (0, 1, ..., n-1)] the
    forward returns its input unchanged. *)
Theorem identity_axes_forward_is_identity :
  forall (dims0 : value_or_list_like) (axes0 : list Z) (dt : np_dtype)
         (nm : string) (op : t) (x : list A),
    __init__ dims0 axes0 dt nm = Ok op ->
    axes op = seq 0 (length (dims op)) ->
    length x = prod (dims op) ->
    _matvec dflt op x = Ok x /\ _rmatvec dflt op x = Ok x.
Proof.
  intros dims0 axes0 dt nm op x Hinit Hax Hx.
  assert (Hp : is_perm (length (dims op)) (axes op))
    by (rewrite Hax; apply Permutation_refl).
  pose proof (@init_wf _ _ _ _ _ Hinit Hp) as Hwf.
  pose proof Hwf as [_ Hi Hd].
  assert (Hdd : dimsd op = dims op) by (rewrite Hd, Hax; apply gather_seq).
  assert (Hq : axesd op = seq 0 (length (dims op))).
  { destruct Hi as [Hl Hi]. apply (nth_ext _ _ 0 0).
    - now rewrite length_seq.
    - intros i Hi'. rewrite Hl in Hi'.
      rewrite seq_nth by exact Hi'. cbn.
      specialize (Hi i Hi'). rewrite Hax, seq_nth in Hi by exact Hi'.
      exact Hi. }
  assert (Hcs : gather (c_strides (dims op)) (seq 0 (length (dims op)))
                = c_strides (dims op)).
  { rewrite <- (c_strides_length (dims op)). apply gather_seq. }
  split.
  - rewrite (matvec_wf dflt x Hwf Hx), Hax, gather_seq, Hcs.
    f_equal. now apply np_ravel_c_contiguous.
  - rewrite rmatvec_wf by (auto; now rewrite Hdd).
    rewrite Hdd, Hq, gather_seq, Hcs.
    f_equal. now apply np_ravel_c_contiguous.
Qed.

End Apply.

(** ** The forward only moves elements *)

(** The buffer position read for the element [J] of a transposed view. *)
Lemma transposed_offset (n : nat) (p q s J : list nat) :
  is_perm n p -> inverse_of n p q -> length s = n ->
  in_bounds J (gather s p) ->
  offset J (gather (c_strides s) p) = ravel_multi_index s (gather J q).
Proof.
  intros Hp Hq Hs HJ.
  assert (HlJ : length J = n).
  { rewrite (in_bounds_length HJ), gather_length. apply (is_perm_length Hp). }
  rewrite <- (gather_inverse_gather J Hp Hq HlJ) at 1.
  unfold ravel_multi_index.
  eapply offset_perm; [exact Hp | | ].
  - rewrite gather_length. apply Hq.
  - rewrite c_strides_length. exact Hs.
Qed.

(** The offsets read by [ravel] on a transposed C-contiguous array are a
    permutation of the positions of the buffer. *)
Lemma transposed_offsets_perm (n : nat) (p q s : list nat) :
  is_perm n p -> inverse_of n p q -> length s = n ->
  Permutation (seq 0 (prod s))
              (ravel_offsets (gather s p) (gather (c_strides s) p) 0).
Proof.
  intros Hp Hq Hs.
  assert (Hprod : prod (gather s p) = prod s).
  { apply prod_perm, gather_perm. now rewrite Hs. }
  apply NoDup_Permutation_bis.
  - apply seq_NoDup.
  - rewrite ravel_offsets_length, length_seq, Hprod. lia.
  - intros i Hi. apply in_seq in Hi. assert (Hi' : i < prod s) by lia.
    pose proof (unravel_in_bounds s Hi') as HI.
    set (I := unravel_index s i) in *.
    assert (HJ : in_bounds (gather I p) (gather s p)).
    { apply in_bounds_gather; auto. intros a Ha. rewrite Hs.
      apply (is_perm_lt Hp Ha). }
    pose proof (ravel_lt HJ) as Hk.
    set (k := ravel_multi_index (gather s p) (gather I p)) in *.
    assert (E : nth k (ravel_offsets (gather s p) (gather (c_strides s) p) 0) 0
                = i).
    { rewrite ravel_offsets_nth by (rewrite ?gather_length; auto).
      unfold k. rewrite unravel_ravel by exact HJ. cbn [Nat.add].
      rewrite (@transposed_offset n p q s _ Hp Hq Hs HJ).
      rewrite (gather_gather_inverse I Hp Hq)
        by (rewrite (in_bounds_length HI); exact Hs).
      apply ravel_unravel, Hi'. }
    rewrite <- E. apply nth_In. now rewrite ravel_offsets_length.
Qed.

Lemma map_nth_seq_id {A : Type} (dflt : A) (x : list A) :
  map (fun o => nth o x dflt) (seq 0 (length x)) = x.
Proof.
  apply (nth_ext _ _ dflt dflt).
  - now rewrite length_map, length_seq.
  - intros o Ho. rewrite length_map, length_seq in Ho.
    rewrite (nth_indep _ dflt (nth 0 x dflt))
      by (now rewrite length_map, length_seq).
    rewrite (map_nth (fun o => nth o x dflt)), seq_nth by exact Ho.
    reflexivity.
Qed.

(** X4. The forward of a valid operator only rearranges: its output is a
    permutation of its input, no element is lost, repeated or made up (so
    sums and norms are preserved). *)
Theorem forward_is_rearrangement :
  forall (A : Type) (dflt : A) (dims0 : value_or_list_like)
         (axes0 : list Z) (dt : np_dtype) (nm : string) (op : t)
         (x : list A),
    __init__ dims0 axes0 dt nm = Ok op ->
    is_perm (length (dims op)) (axes op) ->
    length x = prod (dims op) ->
    exists y, _matvec dflt op x = Ok y /\ Permutation x y.
Proof.
  intros A dflt dims0 axes0 dt nm op x Hinit Hp Hx.
  pose proof (@init_wf _ _ _ _ _ Hinit Hp) as Hwf.
  pose proof Hwf as [_ Hi _].
  eexists. split; [apply (matvec_wf dflt x Hwf Hx)|].
  unfold np_ravel. cbn [data Numpy.shape strides].
  rewrite <- (map_nth_seq_id dflt x) at 1.
  apply Permutation_map. rewrite Hx.
  eapply transposed_offsets_perm; [exact Hp | exact Hi | reflexivity].
Qed.

(** ** Elementwise operations *)

Lemma np_ravel_map {A B : Type} (f : A -> B) (dflt : A) (x : list A)
    (s st : list nat) :
  np_ravel (f dflt) {| data := map f x; Numpy.shape := s; strides := st |}
  = map f (np_ravel dflt {| data := x; Numpy.shape := s; strides := st |}).
Proof.
  unfold np_ravel. cbn [data Numpy.shape strides]. rewrite map_map.
  apply map_ext. intros o. apply map_nth.
Qed.

Lemma matvec_shape_only {A : Type} (dflt : A) (op : t) (x : list A) :
  _matvec dflt op x
  = (_ <- np_reshape (repeat tt (length x)) (dims op) ;;
     _ <- check_axes_of op ;;
     Ok (np_ravel dflt {| data := x;
                          Numpy.shape := gather (dims op) (axes op);
                          strides := gather (c_strides (dims op)) (axes op) |})).
Proof.
  unfold _matvec, np_reshape, check_axes_of, np_transpose.
  rewrite repeat_length.
  destruct (length x =? prod (dims op)); [|reflexivity].
  cbn [bind Numpy.shape data strides].
  destruct (negb _); [reflexivity|].
  destruct (check_axes _ _ _); reflexivity.
Qed.

Lemma np_ravel_combine {A B : Type} (da : A) (db : B) (x : list A)
    (y : list B) (s st : list nat) :
  length x = length y ->
  np_ravel (da, db) {| data := combine x y; Numpy.shape := s; strides := st |}
  = combine (np_ravel da {| data := x; Numpy.shape := s; strides := st |})
            (np_ravel db {| data := y; Numpy.shape := s; strides := st |}).
Proof.
  intros Hl. unfold np_ravel. cbn [data Numpy.shape strides].
  induction (ravel_offsets s st 0) as [|o l IH]; cbn [map combine];
    [reflexivity|].
  now rewrite IH, combine_nth.
Qed.

(** X5. The forward commutes with elementwise operations: applying a
    function to every element, or combining two inputs of one length
    element by element, before the forward gives what the same operation
    gives after it.  With scaling and addition this is the linearity the
    operator declares, and it holds whatever the attributes are, errors
    included. *)
Theorem forward_commutes_with_elementwise :
  (forall (A B : Type) (f : A -> B) (dflt : A) (op : t) (x : list A),
      _matvec (f dflt) op (map f x)
      = (y <- _matvec dflt op x ;; Ok (map f y)))
  /\ (forall (A B C : Type) (g : A -> B -> C) (da : A) (db : B) (op : t)
             (x : list A) (y : list B),
         length x = length y ->
         _matvec (g da db) op (zip_with g x y)
         = (u <- _matvec da op x ;; v <- _matvec db op y ;;
            Ok (zip_with g u v))).
Proof.
  assert (Hmap : forall (A B : Type) (f : A -> B) (dflt : A) (op : t)
                        (x : list A),
             _matvec (f dflt) op (map f x)
             = (y <- _matvec dflt op x ;; Ok (map f y))).
  { intros A B f dflt op x. rewrite !matvec_shape_only, length_map.
    destruct (np_reshape _ _); cbn [bind]; [|reflexivity].
    destruct (check_axes_of op); cbn [bind]; [|reflexivity].
    now rewrite np_ravel_map. }
  split; [exact Hmap|].
  intros A B C g da db op x y Hl. unfold zip_with.
  rewrite (Hmap _ _ (fun p => g (fst p) (snd p)) (da, db)).
  rewrite !matvec_shape_only, length_combine, <- Hl, Nat.min_id.
  destruct (np_reshape _ _); cbn [bind]; [|reflexivity].
  destruct (check_axes_of op); cbn [bind]; [|reflexivity].
  now rewrite np_ravel_combine.
Qed.

Lemma forward_commutes_with_elementwise_witness :
  _matvec 0 op_234 (zip_with Nat.add (seq 0 24) (seq 100 24))
  = (u <- _matvec 0 op_234 (seq 0 24) ;;
     v <- _matvec 0 op_234 (seq 100 24) ;;
     Ok (zip_with Nat.add u v)).
Proof.
  apply (proj2 forward_commutes_with_elementwise nat nat nat Nat.add 0 0).
  reflexivity.
Defined.

(** ** Constructing the adjoint *)

Lemma mapM_normalize_nonneg (n : nat) (p : list nat) :
  (forall a, In a p -> a < n) ->
  mapM (fun ax => normalize_axis_index ax n) (map Z.of_nat p) = Ok p.
Proof.
  induction p as [|a p IH]; intros Hlt; cbn [map mapM]; [reflexivity|].
  rewrite IH by (intros; apply Hlt; now right). cbn [bind].
  unfold normalize_axis_index.
  specialize (Hlt a (or_introl eq_refl)).
  replace ((- Z.of_nat n <=? Z.of_nat a)%Z) with true
    by (symmetry; apply Z.leb_le; lia).
  replace ((Z.of_nat a <? Z.of_nat n)%Z) with true
    by (symmetry; apply Z.ltb_lt; lia).
  replace ((Z.of_nat a <? 0)%Z) with false
    by (symmetry; apply Z.ltb_ge; lia).
  cbn. now rewrite Nat2Z.id.
Qed.

Lemma inverse_of_unique (n : nat) (p q q' : list nat) :
  is_perm n p -> inverse_of n p q -> inverse_of n p q' -> q = q'.
Proof.
  intros Hp Hq Hq'. apply (nth_ext _ _ 0 0).
  - destruct Hq, Hq'. congruence.
  - intros i Hi. destruct Hq as [Hl Hq], Hq' as [Hl' Hq'].
    rewrite Hl in Hi.
    destruct (In_nth p i 0 (is_perm_In Hp Hi)) as (j & Hj & <-).
    rewrite (is_perm_length Hp) in Hj. now rewrite Hq, Hq'.
Qed.

(** X6. Constructing [Transpose(op.dimsd, op.axesd)] from a valid operator
    succeeds and gives the adjoint operator: its [axes]/[axesd] and
    [dims]/[dimsd] are those of [op] exchanged, and its forward is the
    adjoint of [op]. *)
Theorem adjoint_is_a_Transpose :
  forall (dims0 : value_or_list_like) (axes0 : list Z) (dt : np_dtype)
         (nm : string) (op : t),
    __init__ dims0 axes0 dt nm = Ok op ->
    is_perm (length (dims op)) (axes op) ->
    __init__ (ListLike (dimsd op)) (map Z.of_nat (axesd op)) dt nm
    = Ok (adjoint_op op)
    /\ forall (A : Type) (dflt : A) (y : list A),
         _matvec dflt (adjoint_op op) y = _rmatvec dflt op y.
Proof.
  intros dims0 axes0 dt nm op Hinit Hp.
  pose proof (@init_wf _ _ _ _ _ Hinit Hp) as Hwf.
  pose proof Hwf as [_ Hi Hd].
  pose proof (dimsd_length Hwf) as Hl.
  pose proof (inverse_of_perm Hp Hi) as Hq.
  destruct (@init_record _ _ _ _ _ Hinit) as [Hrec Hfit].
  assert (Hds : dims op = _value_or_list_like_to_tuple dims0)
    by (rewrite Hrec; reflexivity).
  rewrite <- Hds in Hfit.
  split; [|reflexivity].
  destruct (@init_perm_Ok (ListLike (dimsd op)) (map Z.of_nat (axesd op))
              dt nm (axesd op)) as (op' & Hinit' & Hd' & Ha').
  - cbn [_value_or_list_like_to_tuple]. rewrite Hl.
    apply mapM_normalize_nonneg. intros a Ha. apply (is_perm_lt Hq Ha).
  - cbn [_value_or_list_like_to_tuple]. now rewrite Hl.
  - cbn [_value_or_list_like_to_tuple]. rewrite Hd.
    apply (Permutation_Forall (Permutation_sym (gather_perm _ Hp))), Hfit.
  - cbn [_value_or_list_like_to_tuple] in Hd'.
    assert (Hp' : is_perm (length (dims op')) (axes op'))
      by (now rewrite Hd', Ha', Hl).
    pose proof (@init_wf _ _ _ _ _ Hinit' Hp') as [_ Hi' Hdd'].
    rewrite Hd', Ha', Hl in Hi'. rewrite Hd', Ha' in Hdd'.
    assert (Eq : axesd op' = axes op)
      by (eapply inverse_of_unique;
          [exact Hq | exact Hi' | exact (inverse_of_sym Hp Hi)]).
    assert (Edd : dimsd op' = dims op)
      by (rewrite Hdd'; apply (dimsd_axesd Hwf)).
    rewrite Hinit'. f_equal.
    destruct (@init_record _ _ _ _ _ Hinit') as [Hrec' _].
    rewrite Hrec'. cbn [_value_or_list_like_to_tuple].
    rewrite Ha', Eq, Edd. unfold adjoint_op.
    pose proof (f_equal Transpose.shape Hrec) as Hsh.
    pose proof (f_equal dtype Hrec) as Hdt.
    pose proof (f_equal explicit Hrec) as Hex.
    pose proof (f_equal clinear Hrec) as Hcl.
    pose proof (f_equal name Hrec) as Hnm.
    cbn in Hsh, Hdt, Hex, Hcl, Hnm.
    rewrite Hsh, Hdt, Hex, Hcl, Hnm, <- Hds. reflexivity.
Qed.

Lemma forward_of_adjoint_is_identity_witness :
  (x <- _rmatvec 0 op_234 (seq 0 24) ;; _matvec 0 op_234 x) = Ok (seq 0 24).
Proof.
  assert (Hinit : __init__ (ListLike [2; 3; 4]) [1; -1; 0]%Z float64 "T"
                  = Ok op_234) by reflexivity.
  apply (@forward_of_adjoint_is_identity nat 0 _ _ _ _ _ (seq 0 24) Hinit).
  - apply perm_120.
  - reflexivity.
Defined.

Lemma forward_accepts_exactly_prod_dims_witness :
  ((exists y, _matvec 0 op_234 [1; 2; 3] = Ok y) <-> 3 = 24)
  /\ (3 <> 24 ->
      _matvec 0 op_234 [1; 2; 3] = Raise (ValueError "cannot reshape array")).
Proof.
  assert (Hinit : __init__ (ListLike [2; 3; 4]) [1; -1; 0]%Z float64 "T"
                  = Ok op_234) by reflexivity.
  apply (@forward_accepts_exactly_prod_dims nat 0 _ _ _ _ _ [1; 2; 3] Hinit).
  apply perm_120.
Defined.

Lemma identity_axes_forward_is_identity_witness :
  exists op,
    __init__ (ListLike [2; 3]) [-2; -1]%Z float64 "T" = Ok op
    /\ _matvec 0 op (seq 0 6) = Ok (seq 0 6)
    /\ _rmatvec 0 op (seq 0 6) = Ok (seq 0 6).
Proof.
  pose (op := {| dims := [2; 3]; axes := [0; 1]; axesd := [0; 1];
                 dimsd := [2; 3]; Transpose.shape := (6, 6)%Z;
                 dtype := float64; explicit := false; clinear := true;
                 name := "T" |}).
  assert (Hinit : __init__ (ListLike [2; 3]) [-2; -1]%Z float64 "T" = Ok op)
    by reflexivity.
  exists op. split; [exact Hinit|].
  apply (@identity_axes_forward_is_identity nat 0 _ _ _ _ _ (seq 0 6) Hinit);
    reflexivity.
Defined.

Lemma forward_is_rearrangement_witness :
  exists y, _matvec 0 op_234 (seq 0 24) = Ok y /\ Permutation (seq 0 24) y.
Proof.
  assert (Hinit : __init__ (ListLike [2; 3; 4]) [1; -1; 0]%Z float64 "T"
                  = Ok op_234) by reflexivity.
  apply (@forward_is_rearrangement nat 0 _ _ _ _ _ (seq 0 24) Hinit).
  - apply perm_120.
  - reflexivity.
Defined.

Lemma adjoint_is_a_Transpose_witness :
  __init__ (ListLike [3; 4; 2]) [2; 0; 1]%Z float64 "T"
  = Ok (adjoint_op op_234).
Proof.
  assert (Hinit : __init__ (ListLike [2; 3; 4]) [1; -1; 0]%Z float64 "T"
                  = Ok op_234) by reflexivity.
  apply (@adjoint_is_a_Transpose _ _ _ _ _ Hinit). apply perm_120.
Defined.

(** ** Which axes are accepted *)

Lemma normalize_axis_index_mod (ax : Z) (n : nat) :
  (- Z.of_nat n <= ax < Z.of_nat n)%Z ->
  normalize_axis_index ax n = Ok (Z.to_nat (ax mod Z.of_nat n)).
Proof.
  intros Hr. unfold normalize_axis_index.
  replace ((- Z.of_nat n <=? ax)%Z) with true by (symmetry; apply Z.leb_le; lia).
  replace ((ax <? Z.of_nat n)%Z) with true by (symmetry; apply Z.ltb_lt; lia).
  cbn [andb]. destruct (ax <? 0)%Z eqn:E.
  - apply Z.ltb_lt in E. do 2 f_equal.
    apply (Z.mod_unique _ _ (-1)); lia.
  - apply Z.ltb_ge in E. rewrite Z.mod_small by lia. reflexivity.
Qed.

(** X7. Negative axes count from the end: when every axis lies in
    [[-ndims, ndims)], constructing with [axes] and constructing with the
    axes reduced modulo [ndims] give the same result (the same operator,
    or the same error). *)
Theorem negative_axes_are_modular :
  forall (dims0 : value_or_list_like) (axes0 : list Z) (dt : np_dtype)
         (nm : string),
    let ndims := Z.of_nat (length (_value_or_list_like_to_tuple dims0)) in
    Forall (fun ax => (- ndims <= ax < ndims)%Z) axes0 ->
    __init__ dims0 axes0 dt nm
    = __init__ dims0 (map (fun ax => (ax mod ndims)%Z) axes0) dt nm.
Proof.
  intros dims0 axes0 dt nm ndims Hr. unfold __init__.
  set (n := length (_value_or_list_like_to_tuple dims0)) in *.
  replace (mapM (fun ax => normalize_axis_index ax n)
                (map (fun ax => (ax mod ndims)%Z) axes0))
    with (mapM (fun ax => normalize_axis_index ax n) axes0); [reflexivity|].
  induction Hr as [|ax l Hax _ IH]; cbn [map mapM]; [reflexivity|].
  rewrite IH. f_equal.
  rewrite !normalize_axis_index_mod; fold ndims.
  - now rewrite Z.mod_mod by lia.
  - pose proof (Z.mod_pos_bound ax ndims). lia.
  - exact Hax.
Qed.

Lemma negative_axes_are_modular_witness :
  __init__ (ListLike [2; 3; 4]) [1; -1; -3]%Z float64 "T"
  = __init__ (ListLike [2; 3; 4]) [1; 2; 0]%Z float64 "T".
Proof.
  apply (@negative_axes_are_modular (ListLike [2; 3; 4]) [1; -1; -3]%Z).
  repeat constructor; cbn; lia.
Defined.

(** X8. For as many axes as dimensions (and extents that fit the integer
    cells) the construction succeeds exactly when the normalised axes are a
    permutation of [range(ndims)]: here the count of distinct axes does
    detect every repetition. *)
Theorem same_length_accepts_exactly_permutations :
  forall (dims0 : value_or_list_like) (axes0 : list Z) (dt : np_dtype)
         (nm : string),
    let ds := _value_or_list_like_to_tuple dims0 in
    length axes0 = length ds ->
    Forall fits_int64 ds ->
    ((exists op, __init__ dims0 axes0 dt nm = Ok op)
     <-> exists p,
           mapM (fun ax => normalize_axis_index ax (length ds)) axes0 = Ok p
           /\ is_perm (length ds) p).
Proof.
  intros dims0 axes0 dt nm ds Hlen Hfit. split.
  - intros [op Hinit]. apply init_inv in Hinit. cbv zeta in Hinit.
    fold ds in Hinit. destruct Hinit as (_ & Hm & Hu & _).
    exists (axes op). split; [exact Hm|].
    destruct (mapM_normalize_Ok _ _ Hm) as [Hl Hlt].
    apply np_unique_full; auto. congruence.
  - intros (p & Hm & Hp).
    destruct (@init_perm_Ok dims0 axes0 dt nm p Hm Hp Hfit) as (op & Hi & _).
    eauto.
Qed.

Lemma same_length_accepts_exactly_permutations_witness :
  (exists op, __init__ (ListLike [3; 4]) [0; 0]%Z float64 "T" = Ok op)
  <-> exists p,
        mapM (fun ax => normalize_axis_index ax 2) [0; 0]%Z = Ok p
        /\ is_perm 2 p.
Proof.
  apply (@same_length_accepts_exactly_permutations (ListLike [3; 4])
           [0; 0]%Z float64 "T").
  - reflexivity.
  - repeat constructor; unfold fits_int64, int64_max; lia.
Defined.

Lemma np_setitem_not_AxisError (a idx vals : list nat) :
  np_setitem a idx vals <> Raise AxisError.
Proof.
  unfold np_setitem.
  destruct (existsb _ idx); [discriminate|].
  destruct (_ =? length idx); [discriminate|].
  destruct (_ =? 1); discriminate.
Qed.

(** X9. [AxisError] is raised by the constructor exactly when some axis
    lies outside [[-ndims, ndims)]: no other failure of the construction
    is reported as an [AxisError]. *)
Theorem AxisError_iff_axis_out_of_range :
  forall (dims0 : value_or_list_like) (axes0 : list Z) (dt : np_dtype)
         (nm : string),
    let ndims := Z.of_nat (length (_value_or_list_like_to_tuple dims0)) in
    __init__ dims0 axes0 dt nm = Raise AxisError
    <-> Exists (fun ax => (ax < - ndims \/ ndims <= ax)%Z) axes0.
Proof.
  intros dims0 axes0 dt nm ndims. split.
  - intros Hinit.
    destruct (Exists_dec (fun ax => (ax < - ndims \/ ndims <= ax)%Z) axes0)
      as [Hex|Hnex]; [|exact Hex|exfalso].
    { intros ax. destruct (Z_lt_dec ax (- ndims)); [left; lia|].
      destruct (Z_le_dec ndims ax); [left; lia | right; lia]. }
    apply Forall_Exists_neg in Hnex.
    assert (Hm : exists p,
               mapM (fun ax => normalize_axis_index ax
                        (length (_value_or_list_like_to_tuple dims0))) axes0
               = Ok p).
    { clear Hinit. induction Hnex as [|ax l Hax _ IH]; cbn [mapM]; [eauto|].
      destruct IH as [p ->].
      rewrite normalize_axis_index_mod by (fold ndims; lia).
      cbn [bind]. eauto. }
    destruct Hm as [p Hm]. unfold __init__ in Hinit.
    rewrite Hm in Hinit. cbn [bind] in Hinit.
    destruct (negb _); [discriminate|].
    destruct (np_setitem _ p _) as [q|e] eqn:E1; cbn [bind] in Hinit;
      [|injection Hinit as ->; eapply np_setitem_not_AxisError; exact E1].
    unfold as_int_array in Hinit.
    destruct (forallb _ _); cbn [bind] in Hinit; [|discriminate].
    destruct (np_setitem _ q _) as [dd|e] eqn:E3; cbn [bind] in Hinit;
      [discriminate|].
    injection Hinit as ->. eapply np_setitem_not_AxisError. exact E3.
  - intros Hex. unfold __init__.
    rewrite mapM_normalize_out by exact Hex. reflexivity.
Qed.

(** ** Composition *)

Lemma gather_gather (l p q : list nat) :
  (forall a, In a q -> a < length p) ->
  gather (gather l p) q = gather l (gather p q).
Proof.
  intros Hq. induction q as [|a q IH]; [reflexivity|].
  change (gather (gather l p) (a :: q))
    with (nth a (gather l p) 0 :: gather (gather l p) q).
  change (gather p (a :: q)) with (nth a p 0 :: gather p q).
  change (gather l (nth a p 0 :: gather p q))
    with (nth (nth a p 0) l 0 :: gather l (gather p q)).
  rewrite IH by (intros; apply Hq; now right).
  rewrite nth_gather by (apply Hq; now left). reflexivity.
Qed.

Lemma gather_is_perm (n : nat) (p1 p2 : list nat) :
  is_perm n p1 -> is_perm n p2 -> is_perm n (gather p1 p2).
Proof.
  intros H1 H2. unfold is_perm.
  transitivity (gather p1 (seq 0 n)); [apply Permutation_map, H2|].
  rewrite <- (is_perm_length H1), gather_seq, (is_perm_length H1).
  exact H1.
Qed.

Lemma gather_inverse_of (n : nat) (p1 q1 p2 q2 : list nat) :
  is_perm n p1 -> inverse_of n p1 q1 ->
  is_perm n p2 -> inverse_of n p2 q2 ->
  inverse_of n (gather p1 p2) (gather q2 q1).
Proof.
  intros Hp1 Hq1 Hp2 Hq2.
  pose proof (inverse_of_perm Hp1 Hq1) as Hq1p.
  split.
  - rewrite gather_length. apply Hq1.
  - intros j Hj.
    pose proof (is_perm_nth_lt Hp2 Hj) as Hlt.
    rewrite (@nth_gather p1 p2 j)
      by (rewrite (is_perm_length Hp2); exact Hj).
    rewrite (@nth_gather q2 q1 (nth (nth j p2 0) p1 0))
      by (rewrite (is_perm_length Hq1p); apply (is_perm_nth_lt Hp1 Hlt)).
    destruct Hq1 as [_ Hq1]. rewrite Hq1 by exact Hlt.
    destruct Hq2 as [_ Hq2]. now apply Hq2.
Qed.

(** X10. Two transpositions compose into one: applying [Transpose(dims,
    axes1)] and then [Transpose(dimsd1, axes2)] is applying
    [Transpose(dims, axes3)] with [axes3[j] = axes1[axes2[j]]], which the
    constructor accepts. *)
Theorem forward_composition :
  forall (A : Type) (dflt : A) (dims0 : value_or_list_like)
         (axes1 axes2 : list Z) (dt : np_dtype) (nm : string) (op1 op2 : t),
    __init__ dims0 axes1 dt nm = Ok op1 ->
    is_perm (length (dims op1)) (axes op1) ->
    __init__ (ListLike (dimsd op1)) axes2 dt nm = Ok op2 ->
    is_perm (length (dims op2)) (axes op2) ->
    exists op3,
      __init__ dims0 (map Z.of_nat (gather (axes op1) (axes op2))) dt nm
      = Ok op3
      /\ forall x : list A,
           length x = prod (dims op1) ->
           (y <- _matvec dflt op1 x ;; _matvec dflt op2 y)
           = _matvec dflt op3 x.
Proof.
  intros A dflt dims0 axes1 axes2 dt nm op1 op2 Hinit1 Hp1 Hinit2 Hp2.
  pose proof (@init_wf _ _ _ _ _ Hinit1 Hp1) as Hwf1.
  pose proof (@init_wf _ _ _ _ _ Hinit2 Hp2) as Hwf2.
  pose proof Hwf1 as [_ Hi1 Hd1]. pose proof Hwf2 as [_ Hi2 Hd2].
  destruct (@init_record _ _ _ _ _ Hinit1) as [Hrec1 Hfit].
  pose proof (f_equal dims Hrec1) as Hds1. cbn in Hds1.
  destruct (@init_record _ _ _ _ _ Hinit2) as [Hrec2 _].
  pose proof (f_equal dims Hrec2) as Hds2. cbn in Hds2.
  set (n := length (dims op1)) in *.
  assert (Hn2 : length (dims op2) = n)
    by (rewrite Hds2; apply (dimsd_length Hwf1)).
  rewrite Hn2 in *.
  set (p1 := axes op1) in *. set (q1 := axesd op1) in *.
  set (p2 := axes op2) in *. set (q2 := axesd op2) in *.
  pose proof (gather_is_perm Hp1 Hp2) as Hp3.
  pose proof (inverse_of_perm Hp1 Hi1) as Hq1p.
  destruct (@init_perm_Ok dims0 (map Z.of_nat (gather p1 p2)) dt nm
              (gather p1 p2)) as (op3 & Hinit3 & Hd3 & Ha3).
  { rewrite <- Hds1. apply mapM_normalize_nonneg.
    intros a Ha. apply (is_perm_lt Hp3 Ha). }
  { rewrite <- Hds1. exact Hp3. }
  { exact Hfit. }
  exists op3. split; [exact Hinit3|]. intros x Hx.
  rewrite <- Hds1 in Hd3.
  assert (Hp3' : is_perm (length (dims op3)) (axes op3))
    by (rewrite Hd3, Ha3; exact Hp3).
  pose proof (@init_wf _ _ _ _ _ Hinit3 Hp3') as Hwf3.
  pose proof Hwf3 as [_ Hi3 _]. rewrite Hd3, Ha3 in Hi3. fold n in Hi3.
  assert (Eq3 : axesd op3 = gather q2 q1).
  { eapply inverse_of_unique; [exact Hp3 | exact Hi3 |].
    now apply gather_inverse_of. }
  rewrite (matvec_wf dflt x Hwf1 Hx). cbn [bind].
  rewrite (matvec_wf dflt _ Hwf2)
    by (rewrite np_ravel_length, Hds2, Hd1; reflexivity).
  rewrite (matvec_wf dflt x Hwf3) by (now rewrite Hd3).
  rewrite Hd3, Ha3, Hds2, Hd1. fold p1 p2.
  set (s := dims op1) in *. set (s2 := gather s p1).
  assert (Hs2 : length s2 = n)
    by (unfold s2; rewrite gather_length; apply (is_perm_length Hp1)).
  assert (ES : gather s2 p2 = gather s (gather p1 p2)).
  { apply gather_gather. intros a Ha.
    rewrite (is_perm_length Hp1). apply (is_perm_lt Hp2 Ha). }
  f_equal. apply (nth_ext _ _ dflt dflt).
  - rewrite !np_ravel_length. cbn [Numpy.shape]. now rewrite ES.
  - intros k Hk. rewrite np_ravel_length in Hk. cbn [Numpy.shape] in Hk.
    pose proof (unravel_in_bounds _ Hk) as HL.
    set (L := unravel_index (gather s2 p2) k) in *.
    rewrite <- (ravel_unravel _ Hk). fold L.
    rewrite (@transposed_read A dflt n p2 q2 s2 L _ Hp2 Hi2 Hs2 HL).
    assert (HJ : in_bounds (gather L q2) (gather s p1)).
    { fold s2.
      assert (HB : in_bounds (gather L q2) (gather (gather s2 p2) q2)).
      { apply in_bounds_gather; [exact HL|].
        intros a Ha. rewrite gather_length, (is_perm_length Hp2).
        apply (is_perm_lt (inverse_of_perm Hp2 Hi2) Ha). }
      rewrite (gather_gather_inverse s2 Hp2 Hi2 Hs2) in HB. exact HB. }
    subst s2.
    rewrite (@transposed_read A dflt n p1 q1 s (gather L q2) x
               Hp1 Hi1 eq_refl HJ).
    rewrite ES in HL |- *.
    rewrite (@transposed_read A dflt n (gather p1 p2) (axesd op3) s L x
               Hp3 Hi3 eq_refl HL).
    rewrite Eq3, gather_gather; [reflexivity|].
    intros a Ha. destruct Hi2 as [-> _]. apply (is_perm_lt Hq1p Ha).
Qed.

Lemma forward_composition_witness :
  exists op3,
    __init__ (ListLike [2; 3; 4]) (map Z.of_nat (gather [1; 2; 0] [2; 0; 1]))
             float64 "T" = Ok op3
    /\ (y <- _matvec 0 op_234 (seq 0 24) ;;
        _matvec 0 (adjoint_op op_234) y) = _matvec 0 op3 (seq 0 24).
Proof.
  assert (Hinit : __init__ (ListLike [2; 3; 4]) [1; -1; 0]%Z float64 "T"
                  = Ok op_234) by reflexivity.
  assert (Hinit2 : __init__ (ListLike (dimsd op_234)) [2; 0; 1]%Z float64 "T"
                   = Ok (adjoint_op op_234)) by reflexivity.
  destruct (@forward_composition nat 0 _ _ _ _ _ _ _ Hinit perm_120 Hinit2)
    as (op3 & H3 & Hx).
  - unfold is_perm. cbn.
    apply Permutation_sym, (@Permutation_cons_app _ [1; 2] [2] [1] 0).
    apply perm_swap.
  - exists op3. split; [exact H3|]. apply Hx. reflexivity.
Defined.

End TransposeExtra.

(* ================================================================== *)
(** * MatrixMult: further properties of the operator *)

Module MatrixMultExtra.
Import Numpy NumpyFacts MatrixMult MatrixMultSpec.

Section WithScalar.
Context {K : Type} `{ScalarLaws K}.

Add Ring Kring_extra : scalar_ring.

(** ** The matrix of the adjoint *)

Lemma mdtype_conj_transpose (c : bool) (M : matrix K) :
  mdtype (conj_transpose c M) = mdtype M.
Proof. destruct c; destruct M; reflexivity. Qed.

Lemma iscomplexobj_conj_transpose (c : bool) (M : matrix K) :
  iscomplexobj (conj_transpose c M) = iscomplexobj M.
Proof. unfold iscomplexobj. now rewrite mdtype_conj_transpose. Qed.

Lemma complex_flag_conj_transpose (c : bool) (M : matrix K) :
  complex_flag (conj_transpose c M) = complex_flag M.
Proof.
  destruct c; destruct M as [dt a|fmt dt r k coo]; try reflexivity;
    destruct fmt; reflexivity.
Qed.

Lemma mshape_conj_transpose (c : bool) (M : matrix K) :
  mshape (conj_transpose c M) = (snd (mshape M), fst (mshape M)).
Proof.
  unfold conj_transpose.
  destruct c; rewrite ?mshape_mconj; apply mshape_T.
Qed.

Lemma mismatch_T (M : matrix K) : mismatch (T M) = mismatch M.
Proof. destruct M; reflexivity. Qed.

Lemma mismatch_mconj (M : matrix K) : mismatch (mconj M) = mismatch M.
Proof. destruct M; reflexivity. Qed.

Lemma mismatch_conj_transpose (c : bool) (M : matrix K) :
  mismatch (conj_transpose c M) = mismatch M.
Proof.
  unfold conj_transpose.
  destruct c; rewrite ?mismatch_mconj; apply mismatch_T.
Qed.

Lemma entry_conj_transpose (c : bool) (M : matrix K) (i k : nat) :
  entry (conj_transpose c M) k i
  = if c then sconj (entry M i k) else entry M i k.
Proof.
  unfold conj_transpose.
  destruct c; rewrite ?entry_mconj, entry_T; reflexivity.
Qed.

Lemma entry_conj_transpose_twice (c : bool) (M : matrix K) (i k : nat) :
  entry (conj_transpose c (conj_transpose c M)) i k = entry M i k.
Proof.
  rewrite !entry_conj_transpose.
  destruct c; [apply sconj_invol | reflexivity].
Qed.

Lemma mshape_conj_transpose_twice (c : bool) (M : matrix K) :
  mshape (conj_transpose c (conj_transpose c M)) = mshape M.
Proof. rewrite !mshape_conj_transpose. now destruct (mshape M). Qed.

(** ** Products that only depend on the entries *)

Lemma dot_vec_ext (M M' : matrix K) (x : list K) :
  mshape M = mshape M' -> mismatch M = mismatch M' ->
  (forall i k, entry M i k = entry M' i k) ->
  dot_vec M x = dot_vec M' x.
Proof.
  intros Hs Hm He. unfold dot_vec. rewrite <- Hs, <- Hm.
  destruct (mshape M) as [r c]. destruct (_ =? _); [|reflexivity].
  f_equal. apply map_ext. intros i. apply sum_n_ext. intros k _.
  now rewrite He.
Qed.

Lemma dot_mat_ext (M M' : matrix K) (X : ndarray K) :
  mshape M = mshape M' -> mismatch M = mismatch M' ->
  (forall i k, entry M i k = entry M' i k) ->
  dot_mat M X = dot_mat M' X.
Proof.
  intros Hs Hm He. unfold dot_mat. rewrite <- Hs, <- Hm.
  destruct (mshape M) as [r c].
  destruct (Numpy.shape X) as [|c' [|p [|? ?]]]; try reflexivity.
  destruct (c' =? c); [|reflexivity].
  do 2 f_equal. apply flat_map_ext. intros i. apply map_ext. intros j.
  apply sum_n_ext. intros k _. now rewrite He.
Qed.

Lemma matmul_trailing_ext (M M' : matrix K) (od : list nat) (x : list K) :
  mshape M = mshape M' ->
  (forall i k, i < fst (mshape M) -> k < snd (mshape M) ->
               entry M i k = entry M' i k) ->
  matmul_trailing M od x = matmul_trailing M' od x.
Proof.
  intros Hs He. apply (nth_ext _ _ s0 s0).
  - now rewrite !matmul_trailing_length, Hs.
  - intros o Ho. rewrite matmul_trailing_length in Ho.
    rewrite !matmul_trailing_nth by (rewrite <- ?Hs; exact Ho).
    rewrite <- Hs. apply sum_n_ext. intros k Hk. rewrite He; auto.
    apply Nat.Div0.div_lt_upper_bound. lia.
Qed.

(** The product depends on the trailing axes through their total size
    only. *)
Lemma matmul_trailing_prod (M : matrix K) (od od' : list nat) (x : list K) :
  prod od = prod od' ->
  matmul_trailing M od x = matmul_trailing M od' x.
Proof.
  intros Hp. apply (nth_ext _ _ s0 s0).
  - now rewrite !matmul_trailing_length, Hp.
  - intros o Ho. rewrite matmul_trailing_length in Ho.
    rewrite !matmul_trailing_nth by (rewrite <- ?Hp; exact Ho).
    now rewrite Hp.
Qed.

(** ** Conjugation moved onto the matrix *)

Lemma conj_map {B : Type} (g : B -> K) (l : list B) :
  conj (map g l) = map (fun b => sconj (g b)) l.
Proof. apply map_map. Qed.

Lemma conj_flat_map {B : Type} (g : B -> list K) (l : list B) :
  conj (flat_map g l) = flat_map (fun b => conj (g b)) l.
Proof.
  induction l as [|b l IH]; [reflexivity|].
  cbn [flat_map]. rewrite <- IH. apply map_app.
Qed.

Lemma dot_vec_conj (M : matrix K) (x : list K) :
  (z <- dot_vec M (conj x) ;; Ok (conj z)) = dot_vec (mconj M) x.
Proof.
  unfold dot_vec. rewrite mshape_mconj, mismatch_mconj, conj_length.
  destruct (mshape M) as [r c]. destruct (_ =? _); [|reflexivity].
  cbn [bind]. f_equal. rewrite conj_map. apply map_ext. intros i.
  rewrite sconj_sum_n. apply sum_n_ext. intros k _.
  now rewrite sconj_mul, nth_conj, sconj_invol, entry_mconj.
Qed.

Lemma dot_mat_conj (M : matrix K) (X : ndarray K) :
  (Y <- dot_mat M (nd_conj X) ;; Ok (nd_conj Y)) = dot_mat (mconj M) X.
Proof.
  unfold dot_mat. rewrite mshape_mconj, mismatch_mconj.
  destruct (mshape M) as [r c].
  change (Numpy.shape (nd_conj X)) with (Numpy.shape X).
  destruct (Numpy.shape X) as [|c' [|p [|? ?]]]; try reflexivity.
  destruct (c' =? c); [|reflexivity].
  cbn [bind]. unfold nd_conj at 1. cbn [data Numpy.shape strides].
  do 2 f_equal. rewrite conj_flat_map. apply flat_map_ext. intros i.
  rewrite conj_map. apply map_ext. intros j.
  rewrite sconj_sum_n. apply sum_n_ext. intros k _.
  rewrite sconj_mul, entry_mconj. f_equal.
  unfold get2, nd_conj. cbn [data strides].
  now rewrite nth_conj, sconj_invol.
Qed.

(** [_rmatvec] is the product by [rmatvec_matrix], on every input. *)
Lemma rmatvec_dot (op : t K) (x : list K) :
  _rmatvec op x
  = if reshape op then
      shp <- attr (dimsdflatten op) ;;
      X <- np_reshape_int x shp ;;
      Y <- dot_mat (rmatvec_matrix op) X ;;
      Ok (np_ravel s0 Y)
    else dot_vec (rmatvec_matrix op) x.
Proof.
  unfold _rmatvec, rmatvec_matrix, conj_transpose.
  destruct (reshape op).
  - destruct (attr (dimsdflatten op)) as [shp|e]; [|reflexivity].
    cbn [bind]. destruct (np_reshape_int x shp) as [X|e]; [|reflexivity].
    cbn [bind]. destruct (complex op); [|reflexivity].
    now rewrite <- dot_mat_conj.
  - destruct (complex op); [apply dot_vec_conj | reflexivity].
Qed.

Lemma np_array_int_Ok (l l' : list nat) :
  np_array_int l = Ok l' -> l' = l /\ Forall fits_int64 l.
Proof.
  unfold np_array_int. destruct (forallb _ l) eqn:Ef;
    [|destruct (existsb _ l); discriminate].
  intros [= <-]. split; [reflexivity|].
  rewrite forallb_forall in Ef. apply Forall_forall. intros d Hd.
  apply Z.leb_le, Ef, Hd.
Qed.

(** The operator of the adjoint: [MatrixMult] of the matrix that
    [_rmatvec] multiplies by. *)
Lemma adjoint_init (A0 : matrix K) (od0 : option value_or_list_like)
    (dt0 : np_dtype) (op : t K) (log : list string) :
  __init__ A0 od0 dt0 = Ok (op, log) ->
  exists op', __init__ (rmatvec_matrix op) od0 dt0 = Ok (op', log).
Proof.
  intros Hi.
  pose proof Hi as Hinv. apply matrix_init_inv in Hinv.
  destruct Hinv as (HA & HC & _ & Hl & _).
  unfold rmatvec_matrix. rewrite HA.
  destruct (@matrix_init_Ok K (conj_transpose (complex op) A0) od0 dt0
              (complex op)) as (op' & log' & Hi').
  { now rewrite complex_flag_conj_transpose. }
  { destruct od0 as [v|]; [|exact I].
    unfold __init__ in Hi. rewrite HC in Hi. cbn [bind] in Hi.
    destruct (mshape A0).
    destruct (np_array_int _) as [od|e] eqn:Eod; [|discriminate].
    apply np_array_int_Ok in Eod. apply Eod. }
  exists op'. rewrite Hi'. do 2 f_equal.
  apply matrix_init_inv in Hi'. destruct Hi' as (_ & _ & _ & -> & _).
  rewrite Hl.
  now rewrite iscomplexobj_conj_transpose, mdtype_conj_transpose.
Qed.

Lemma adjoint_matvec (A0 : matrix K) (od0 : option value_or_list_like)
    (dt0 : np_dtype) (op op' : t K) (log log' : list string) :
  __init__ A0 od0 dt0 = Ok (op, log) ->
  __init__ (rmatvec_matrix op) od0 dt0 = Ok (op', log') ->
  complex op' = complex op
  /\ (forall y, _matvec op' y = _rmatvec op y)
  /\ (forall x, _rmatvec op' x = _matvec op x).
Proof.
  intros Hi Hi'.
  apply matrix_init_inv in Hi, Hi'.
  destruct Hi as (HA & HC & _ & _ & Hi), Hi' as (HA' & HC' & _ & _ & Hi').
  assert (Hcx : complex op' = complex op).
  { unfold rmatvec_matrix in HC'.
    rewrite complex_flag_conj_transpose, HA, HC in HC'.
    now injection HC'. }
  split; [exact Hcx|].
  assert (Hsh : mshape (rmatvec_matrix op)
                = (snd (mshape A0), fst (mshape A0))).
  { unfold rmatvec_matrix. now rewrite mshape_conj_transpose, HA. }
  rewrite Hsh in Hi'. cbn [fst snd] in Hi'.
  assert (HM : rmatvec_matrix op'
               = conj_transpose (complex op)
                   (conj_transpose (complex op) A0)).
  { unfold rmatvec_matrix at 1. rewrite HA', Hcx.
    unfold rmatvec_matrix. now rewrite HA. }
  assert (Hext : forall x, dot_vec (rmatvec_matrix op') x = dot_vec A0 x).
  { intros x. rewrite HM. apply dot_vec_ext.
    - apply mshape_conj_transpose_twice.
    - now rewrite !mismatch_conj_transpose.
    - apply entry_conj_transpose_twice. }
  assert (Hext2 : forall X, dot_mat (rmatvec_matrix op') X = dot_mat A0 X).
  { intros X. rewrite HM. apply dot_mat_ext.
    - apply mshape_conj_transpose_twice.
    - now rewrite !mismatch_conj_transpose.
    - apply entry_conj_transpose_twice. }
  split.
  - intros y. rewrite (rmatvec_dot op y). unfold _matvec.
    rewrite HA'. destruct od0 as [v|].
    + cbv zeta in Hi, Hi'.
      destruct Hi as (-> & _ & _ & _ & _ & -> & _).
      destruct Hi' as (-> & _ & _ & _ & -> & _). reflexivity.
    + destruct Hi as (-> & _), Hi' as (-> & _). reflexivity.
  - intros x. rewrite (rmatvec_dot op' x). unfold _matvec.
    rewrite HA. destruct od0 as [v|].
    + cbv zeta in Hi, Hi'.
      destruct Hi as (-> & _ & _ & _ & -> & _).
      destruct Hi' as (-> & _ & _ & _ & _ & -> & _).
      cbn [attr bind]. destruct (np_reshape_int x _) as [X|e]; [|reflexivity].
      cbn [bind]. now rewrite Hext2.
    + destruct Hi as (-> & _), Hi' as (-> & _). apply Hext.
Qed.

Lemma adjoint_fields (A0 : matrix K) (od0 : option value_or_list_like)
    (dt0 : np_dtype) (op op' : t K) (log log' : list string) :
  __init__ A0 od0 dt0 = Ok (op, log) ->
  __init__ (rmatvec_matrix op) od0 dt0 = Ok (op', log') ->
  dims op' = dimsd op /\ dimsd op' = dims op
  /\ trailing op' = trailing op
  /\ MatrixMult.shape op'
     = (snd (MatrixMult.shape op), fst (MatrixMult.shape op))
  /\ dtype op' = dtype op.
Proof.
  intros Hi Hi'. apply matrix_init_inv in Hi, Hi'.
  destruct Hi as (HA & _ & Hd & _ & Hi), Hi' as (_ & _ & Hd' & _ & Hi').
  unfold rmatvec_matrix in Hd', Hi'. rewrite HA in Hd', Hi'.
  rewrite iscomplexobj_conj_transpose, mdtype_conj_transpose, <- Hd in Hd'.
  rewrite mshape_conj_transpose in Hi'. cbn [fst snd] in Hi'.
  unfold trailing. destruct od0 as [v|].
  - cbv zeta in Hi, Hi'.
    destruct Hi as (_ & -> & -> & -> & _ & _ & -> & _).
    destruct Hi' as (_ & -> & -> & -> & _ & _ & -> & _). auto.
  - destruct Hi as (_ & -> & -> & -> & -> & _).
    destruct Hi' as (_ & -> & -> & -> & -> & _). auto.
Qed.

(** ** Inputs the operator accepts, and its errors *)

Lemma matvec_Ok_length (A0 : matrix K) (od0 : option value_or_list_like)
    (dt0 : np_dtype) (op : t K) (log : list string) (x v : list K) :
  __init__ A0 od0 dt0 = Ok (op, log) ->
  fits_int64 (prod (trailing op)) ->
  _matvec op x = Ok v ->
  length x = size_of (dims op).
Proof.
  intros Hi Hfit. rewrite (proj1 (size_of_dims _ _ _ Hi)).
  apply matrix_init_inv in Hi. destruct Hi as (HA & _ & _ & _ & Hi).
  unfold _matvec, trailing in *. rewrite HA. destruct od0 as [v0|].
  - cbv zeta in Hi. destruct Hi as (-> & Hod & _ & _ & -> & _).
    rewrite Hod in *. cbn [attr bind].
    rewrite np_prod_fits, np_reshape_int_nonneg by exact Hfit.
    unfold np_reshape. destruct (length x =? _) eqn:E; [|discriminate].
    intros _. apply Nat.eqb_eq in E. cbn [prod fold_right] in E. lia.
  - destruct Hi as (-> & Hod & _). rewrite Hod.
    unfold dot_vec. destruct (mshape A0) as [r c]. cbn [fst snd].
    destruct (length x =? c) eqn:E; [|discriminate].
    intros _. apply Nat.eqb_eq in E. cbn [prod fold_right]. lia.
Qed.

Lemma np_reshape_int_exn {B : Type} (x : list B) (shp : list Z) (e : exn) :
  np_reshape_int x shp = Raise e -> exists msg, e = ValueError msg.
Proof.
  unfold np_reshape_int, np_reshape.
  destruct (filter _ shp) as [|d [|d' l]].
  - destruct (_ =? _); [discriminate|]. intros [= <-]. eauto.
  - destruct (_ || _); [intros [= <-]; eauto|].
    destruct (_ =? _); [discriminate|]. intros [= <-]. eauto.
  - intros [= <-]. eauto.
Qed.

Lemma mismatch_ValueError (M : matrix K) : exists msg, mismatch M = ValueError msg.
Proof. destruct M; cbn; eauto. Qed.

Lemma dot_vec_exn (M : matrix K) (x : list K) (e : exn) :
  dot_vec M x = Raise e -> exists msg, e = ValueError msg.
Proof.
  unfold dot_vec. destruct (mshape M). destruct (_ =? _); [discriminate|].
  intros [= <-]. apply mismatch_ValueError.
Qed.

Lemma dot_mat_exn (M : matrix K) (X : ndarray K) (e : exn) :
  dot_mat M X = Raise e -> exists msg, e = ValueError msg.
Proof.
  unfold dot_mat. destruct (mshape M).
  destruct (Numpy.shape X) as [|c' [|p [|? ?]]];
    try (intros [= <-]; apply mismatch_ValueError).
  destruct (_ =? _); [discriminate|].
  intros [= <-]. apply mismatch_ValueError.
Qed.

Lemma matvec_exn (A0 : matrix K) (od0 : option value_or_list_like)
    (dt0 : np_dtype) (op : t K) (log : list string) (x : list K) (e : exn) :
  __init__ A0 od0 dt0 = Ok (op, log) ->
  _matvec op x = Raise e -> exists msg, e = ValueError msg.
Proof.
  intros Hi. apply matrix_init_inv in Hi. destruct Hi as (_ & _ & _ & _ & Hi).
  unfold _matvec. destruct od0 as [v0|].
  - cbv zeta in Hi. destruct Hi as (-> & _ & _ & _ & -> & _).
    cbn [attr bind].
    destruct (np_reshape_int x _) as [X|e1] eqn:E1; cbn [bind].
    + destruct (dot_mat (A op) X) as [Y|e2] eqn:E2; cbn [bind];
        [discriminate|].
      intros [= <-]. eapply dot_mat_exn, E2.
    + intros [= <-]. eapply np_reshape_int_exn, E1.
  - destruct Hi as (-> & _). apply dot_vec_exn.
Qed.

(** ** Linearity of the product along the first axis *)

Lemma vadd_length (x y : list K) :
  length x = length y -> length (vadd x y) = length x.
Proof.
  intros Hl. unfold vadd, zip_with. rewrite length_map, length_combine. lia.
Qed.

Lemma nth_vadd (x y : list K) (o : nat) :
  length x = length y ->
  nth o (vadd x y) s0 = sadd (nth o x s0) (nth o y s0).
Proof.
  revert y o. induction x as [|a x IH]; intros [|b y] o Hl;
    try discriminate Hl.
  - destruct o; cbn; ring.
  - destruct o as [|o]; [reflexivity|].
    apply (IH y o). now injection Hl.
Qed.

Lemma vscale_length (c : K) (x : list K) : length (vscale c x) = length x.
Proof. apply length_map. Qed.

Lemma nth_vscale (c : K) (x : list K) (o : nat) :
  nth o (vscale c x) s0 = smul c (nth o x s0).
Proof.
  revert o. induction x as [|a x IH]; intros [|o]; cbn; try ring.
  apply IH.
Qed.

Lemma matmul_trailing_vadd (M : matrix K) (od : list nat) (x x' : list K) :
  length x = length x' ->
  matmul_trailing M od (vadd x x')
  = vadd (matmul_trailing M od x) (matmul_trailing M od x').
Proof.
  intros Hl.
  assert (Hl2 : length (matmul_trailing M od x)
                = length (matmul_trailing M od x'))
    by (now rewrite !matmul_trailing_length).
  apply (nth_ext _ _ s0 s0).
  - now rewrite vadd_length, !matmul_trailing_length.
  - intros o Ho. rewrite matmul_trailing_length in Ho.
    rewrite nth_vadd, !matmul_trailing_nth by assumption.
    rewrite <- sum_n_add. apply sum_n_ext. intros k _.
    rewrite nth_vadd by exact Hl. ring.
Qed.

Lemma matmul_trailing_vscale (M : matrix K) (od : list nat) (c : K)
    (x : list K) :
  matmul_trailing M od (vscale c x) = vscale c (matmul_trailing M od x).
Proof.
  apply (nth_ext _ _ s0 s0).
  - now rewrite vscale_length, !matmul_trailing_length.
  - intros o Ho. rewrite matmul_trailing_length in Ho.
    rewrite nth_vscale, !matmul_trailing_nth by assumption.
    rewrite <- sum_n_scal_l. apply sum_n_ext. intros k _.
    rewrite nth_vscale. ring.
Qed.

Lemma rmatvec_by_matrix (A0 : matrix K)
    (od0 : option value_or_list_like) (dt0 : np_dtype) (op : t K)
    (log : list string) (y : list K) :
  __init__ A0 od0 dt0 = Ok (op, log) ->
  fits_int64 (prod (trailing op)) ->
  length y = size_of (dimsd op) ->
  _rmatvec op y = Ok (matmul_trailing (rmatvec_matrix op) (trailing op) y).
Proof.
  intros Hi Hfit Hy.
  erewrite rmatvec_init by eassumption.
  apply matrix_init_inv in Hi. destruct Hi as (HA & _).
  unfold rmatvec_matrix, conj_transpose. rewrite HA.
  destruct (complex op); [|reflexivity].
  now rewrite conj_matmul_conj.
Qed.

Lemma shape_sizes (A0 : matrix K) (od0 : option value_or_list_like)
    (dt0 : np_dtype) (op : t K) (log : list string) :
  __init__ A0 od0 dt0 = Ok (op, log) ->
  fits_int64 (size_of (dims op)) -> fits_int64 (size_of (dimsd op)) ->
  MatrixMult.shape op
  = (Z.of_nat (size_of (dimsd op)), Z.of_nat (size_of (dims op))).
Proof.
  intros Hi. apply matrix_init_inv in Hi. destruct Hi as (_ & _ & _ & _ & Hi).
  unfold size_of. destruct od0 as [v|].
  - cbv zeta in Hi. destruct Hi as (_ & _ & -> & -> & _ & _ & -> & _).
    cbn [_value_or_list_like_to_tuple]. intros Hd Hdd.
    now rewrite !np_prod_fits.
  - destruct Hi as (_ & _ & -> & -> & -> & _).
    cbn [_value_or_list_like_to_tuple prod fold_right]. intros _ _.
    now rewrite !Nat.mul_1_r.
Qed.

(** ** The properties *)

(** X11. The adjoint of [MatrixMult(A, otherdims, dtype)] is again a
    MatrixMult, the one of [A.T] (of [A.T.conj()] when the [complex]
    attribute of the operator is set) with the same [otherdims] and
    [dtype]: the constructor accepts it and logs the same, [dims] and
    [dimsd] are exchanged, the [complex] attribute is the same, and on
    every input its [_matvec] is the [_rmatvec] of the operator and its
    [_rmatvec] the [_matvec], result or exception alike. *)
Theorem adjoint_is_a_MatrixMult :
  forall (A0 : matrix K) (od0 : option value_or_list_like) (dt0 : np_dtype)
         (op : t K) (log : list string),
    __init__ A0 od0 dt0 = Ok (op, log) ->
    exists op',
      __init__ (conj_transpose (complex op) A0) od0 dt0 = Ok (op', log)
      /\ dims op' = dimsd op /\ dimsd op' = dims op
      /\ MatrixMult.shape op'
         = (snd (MatrixMult.shape op), fst (MatrixMult.shape op))
      /\ dtype op' = dtype op
      /\ complex op' = complex op
      /\ (forall y, _matvec op' y = _rmatvec op y)
      /\ (forall x, _rmatvec op' x = _matvec op x).
Proof.
  intros A0 od0 dt0 op log Hi.
  edestruct adjoint_init as (op' & Hi'); [exact Hi|].
  edestruct adjoint_fields as (Hd & Hdd & _ & Hs & Ht);
    [exact Hi | exact Hi' |].
  edestruct adjoint_matvec as (Hc & Hm & Hr); [exact Hi | exact Hi' |].
  exists op'. split; [|auto 10].
  pose proof Hi as Hinv. apply matrix_init_inv in Hinv.
  destruct Hinv as (HA & _). unfold rmatvec_matrix in Hi'.
  now rewrite HA in Hi'.
Qed.

(** X12. [_matvec] is linear: on inputs of length [prod(dims)] (the extra
    extents multiplying to a 64-bit value) it returns, and
    [_matvec(x + x') = _matvec(x) + _matvec(x')] and
    [_matvec(c * x) = c * _matvec(x)], with or without [otherdims], for a
    dense or sparse matrix. *)
Theorem forward_is_linear :
  forall (A0 : matrix K) (od0 : option value_or_list_like) (dt0 : np_dtype)
         (op : t K) (log : list string) (c : K) (x x' : list K),
    __init__ A0 od0 dt0 = Ok (op, log) ->
    fits_int64 (prod (trailing op)) ->
    length x = size_of (dims op) -> length x' = size_of (dims op) ->
    exists v v',
      _matvec op x = Ok v /\ _matvec op x' = Ok v'
      /\ _matvec op (vadd x x') = Ok (vadd v v')
      /\ _matvec op (vscale c x) = Ok (vscale c v).
Proof.
  intros A0 od0 dt0 op log c x x' Hi Hfit Hx Hx'.
  exists (matmul_trailing A0 (trailing op) x),
         (matmul_trailing A0 (trailing op) x').
  split; [eapply matvec_init; eassumption|].
  split; [eapply matvec_init; eassumption|]. split.
  - erewrite matvec_init;
      [| exact Hi | exact Hfit | rewrite vadd_length; congruence].
    f_equal. apply matmul_trailing_vadd. congruence.
  - erewrite matvec_init;
      [| exact Hi | exact Hfit | now rewrite vscale_length].
    f_equal. apply matmul_trailing_vscale.
Qed.

(** X13. [_rmatvec] is linear as well, also for a complex matrix, where
    the input and the result are both conjugated:
    [_rmatvec(y + y') = _rmatvec(y) + _rmatvec(y')] and
    [_rmatvec(c * y) = c * _rmatvec(y)] for inputs of length
    [prod(dimsd)]. *)
Theorem adjoint_is_linear :
  forall (A0 : matrix K) (od0 : option value_or_list_like) (dt0 : np_dtype)
         (op : t K) (log : list string) (c : K) (y y' : list K),
    __init__ A0 od0 dt0 = Ok (op, log) ->
    fits_int64 (prod (trailing op)) ->
    length y = size_of (dimsd op) -> length y' = size_of (dimsd op) ->
    exists u u',
      _rmatvec op y = Ok u /\ _rmatvec op y' = Ok u'
      /\ _rmatvec op (vadd y y') = Ok (vadd u u')
      /\ _rmatvec op (vscale c y) = Ok (vscale c u).
Proof.
  intros A0 od0 dt0 op log c y y' Hi Hfit Hy Hy'.
  exists (matmul_trailing (rmatvec_matrix op) (trailing op) y),
         (matmul_trailing (rmatvec_matrix op) (trailing op) y').
  split; [eapply rmatvec_by_matrix; eassumption|].
  split; [eapply rmatvec_by_matrix; eassumption|]. split.
  - erewrite rmatvec_by_matrix;
      [| exact Hi | exact Hfit | rewrite vadd_length; congruence].
    f_equal. apply matmul_trailing_vadd. congruence.
  - erewrite rmatvec_by_matrix;
      [| exact Hi | exact Hfit | now rewrite vscale_length].
    f_equal. apply matmul_trailing_vscale.
Qed.

(** X14. The operator accepts exactly the inputs of its sizes (the extra
    extents multiplying to a 64-bit value): [_matvec(x)] returns if and
    only if [len(x) = prod(dims)], and [_rmatvec(y)] returns if and only
    if [len(y) = prod(dimsd)]. *)
Theorem products_accept_exactly_the_operator_sizes :
  forall (A0 : matrix K) (od0 : option value_or_list_like) (dt0 : np_dtype)
         (op : t K) (log : list string),
    __init__ A0 od0 dt0 = Ok (op, log) ->
    fits_int64 (prod (trailing op)) ->
    (forall x, (exists v, _matvec op x = Ok v)
               <-> length x = size_of (dims op))
    /\ (forall y, (exists u, _rmatvec op y = Ok u)
                  <-> length y = size_of (dimsd op)).
Proof.
  intros A0 od0 dt0 op log Hi Hfit.
  edestruct adjoint_init as (op' & Hi'); [exact Hi|].
  edestruct adjoint_fields as (Hd & _ & Htr & _); [exact Hi | exact Hi' |].
  edestruct adjoint_matvec as (_ & Hm & _); [exact Hi | exact Hi' |].
  split.
  - intros x. split.
    + intros (v & Hv). eapply matvec_Ok_length; eassumption.
    + intros Hx. eexists. eapply matvec_init; eassumption.
  - intros y. rewrite <- Hd. split.
    + intros (u & Hu). rewrite <- Hm in Hu.
      eapply matvec_Ok_length; [exact Hi' | now rewrite Htr | exact Hu].
    + intros Hy. eexists. rewrite <- Hm.
      eapply matvec_init; [exact Hi' | now rewrite Htr | exact Hy].
Qed.

(** X15. The [shape] attribute is (length of the forward output, length of
    the forward input) whenever [_matvec] returns, and (length of the
    adjoint input, length of the adjoint output) whenever [_rmatvec]
    returns, the sizes fitting 64 bits. *)
Theorem shape_is_output_size_by_input_size :
  forall (A0 : matrix K) (od0 : option value_or_list_like) (dt0 : np_dtype)
         (op : t K) (log : list string),
    __init__ A0 od0 dt0 = Ok (op, log) ->
    fits_int64 (prod (trailing op)) ->
    fits_int64 (size_of (dims op)) -> fits_int64 (size_of (dimsd op)) ->
    (forall x v, _matvec op x = Ok v ->
       MatrixMult.shape op = (Z.of_nat (length v), Z.of_nat (length x)))
    /\ (forall y u, _rmatvec op y = Ok u ->
          MatrixMult.shape op = (Z.of_nat (length y), Z.of_nat (length u))).
Proof.
  intros A0 od0 dt0 op log Hi Hfit Hfd Hfdd.
  rewrite (shape_sizes _ _ _ Hi Hfd Hfdd).
  edestruct adjoint_init as (op' & Hi'); [exact Hi|].
  edestruct adjoint_fields as (Hd & Hdd & Htr & _); [exact Hi | exact Hi' |].
  edestruct adjoint_matvec as (_ & Hm & _); [exact Hi | exact Hi' |].
  assert (Hlen : forall A1 od1 dt1 (op1 : t K) log1 x v,
            __init__ A1 od1 dt1 = Ok (op1, log1) ->
            fits_int64 (prod (trailing op1)) ->
            _matvec op1 x = Ok v ->
            length x = size_of (dims op1)
            /\ length v = size_of (dimsd op1)).
  { intros A1 od1 dt1 op1 log1 x v Hi1 Hf1 Hv.
    assert (Hx : length x = size_of (dims op1))
      by (eapply matvec_Ok_length; eassumption).
    split; [exact Hx|].
    erewrite matvec_init in Hv by eassumption.
    injection Hv as <-. rewrite matmul_trailing_length.
    symmetry. apply (size_of_dims _ _ _ Hi1). }
  split.
  - intros x v Hv.
    destruct (Hlen _ _ _ _ _ _ _ Hi Hfit Hv) as [-> ->]. reflexivity.
  - intros y u Hu. rewrite <- Hm in Hu.
    destruct (Hlen _ _ _ _ _ _ _ Hi' ltac:(now rewrite Htr) Hu) as [-> ->].
    now rewrite Hd, Hdd.
Qed.

(** X16. Whatever the input, [_matvec] and [_rmatvec] of a constructed
    operator return or raise [ValueError]: the attributes that [__init__]
    only sets with [otherdims] are never read without them. *)
Theorem products_only_raise_ValueError :
  forall (A0 : matrix K) (od0 : option value_or_list_like) (dt0 : np_dtype)
         (op : t K) (log : list string) (x : list K) (e : exn),
    __init__ A0 od0 dt0 = Ok (op, log) ->
    _matvec op x = Raise e \/ _rmatvec op x = Raise e ->
    exists msg, e = ValueError msg.
Proof.
  intros A0 od0 dt0 op log x e Hi [He|He].
  - eapply matvec_exn; eassumption.
  - edestruct adjoint_init as (op' & Hi'); [exact Hi|].
    edestruct adjoint_matvec as (_ & Hm & _); [exact Hi | exact Hi' |].
    rewrite <- Hm in He. eapply matvec_exn; eassumption.
Qed.

(** X17. The extra dimensions matter through their product only: two
    operators on one matrix whose [otherdims] multiply to the same number
    (in particular [otherdims=None], [()] and [1]) have the same
    [_matvec] and [_rmatvec] on the inputs of the operator sizes, the same
    dtype and the same warning. *)
Theorem otherdims_matter_through_their_product :
  forall (A0 : matrix K) (od0 od0' : option value_or_list_like)
         (dt0 : np_dtype) (op op' : t K) (log log' : list string),
    __init__ A0 od0 dt0 = Ok (op, log) ->
    __init__ A0 od0' dt0 = Ok (op', log') ->
    prod (trailing op') = prod (trailing op) ->
    fits_int64 (prod (trailing op)) ->
    (forall x, length x = size_of (dims op) -> _matvec op' x = _matvec op x)
    /\ (forall y, length y = size_of (dimsd op) ->
                  _rmatvec op' y = _rmatvec op y)
    /\ dtype op' = dtype op /\ log' = log.
Proof.
  intros A0 od0 od0' dt0 op op' log log' Hi Hi' Hp Hfit.
  pose proof (size_of_dims _ _ _ Hi) as [Hs Hsd].
  pose proof (size_of_dims _ _ _ Hi') as [Hs' Hsd'].
  rewrite Hp in Hs', Hsd'.
  assert (Hfit' : fits_int64 (prod (trailing op'))) by (now rewrite Hp).
  split; [|split].
  - intros x Hx.
    erewrite (@matvec_init _ _ _ _ _ _ op), (@matvec_init _ _ _ _ _ _ op')
      by (eassumption || congruence).
    f_equal. now apply matmul_trailing_prod.
  - intros y Hy.
    erewrite (@rmatvec_by_matrix _ _ _ op), (@rmatvec_by_matrix _ _ _ op')
      by (eassumption || congruence).
    assert (HM : rmatvec_matrix op' = rmatvec_matrix op).
    { apply matrix_init_inv in Hi, Hi'.
      destruct Hi as (HA & HC & _), Hi' as (HA' & HC' & _).
      unfold rmatvec_matrix. rewrite HA, HA'. f_equal. congruence. }
    rewrite HM. f_equal. now apply matmul_trailing_prod.
  - apply matrix_init_inv in Hi, Hi'.
    destruct Hi as (_ & _ & -> & -> & _), Hi' as (_ & _ & -> & -> & _).
    auto.
Qed.

(** X18. The operator depends on the matrix through its shape, element
    type, entries and [complex] attribute only: a dense array and a
    sparse matrix (or two arrays laid out differently) with the same
    entries give operators with the same attributes and the same
    [_matvec] on the inputs of the operator sizes, and the same
    [_rmatvec] when their [complex] attributes agree, which they do
    unless one of the two is a LIL matrix. *)
Theorem same_entries_same_operator :
  forall (M M' : matrix K) (od0 : option value_or_list_like)
         (dt0 : np_dtype) (op op' : t K) (log log' : list string),
    mshape M = mshape M' -> mdtype M = mdtype M' ->
    (forall i k, i < fst (mshape M) -> k < snd (mshape M) ->
                 entry M i k = entry M' i k) ->
    __init__ M od0 dt0 = Ok (op, log) ->
    __init__ M' od0 dt0 = Ok (op', log') ->
    fits_int64 (prod (trailing op)) ->
    (forall x, length x = size_of (dims op) -> _matvec op' x = _matvec op x)
    /\ (complex op' = complex op ->
        forall y, length y = size_of (dimsd op) ->
                  _rmatvec op' y = _rmatvec op y)
    /\ ((forall dt r c coo, M <> Sparse LIL dt r c coo) ->
        (forall dt r c coo, M' <> Sparse LIL dt r c coo) ->
        complex op' = complex op)
    /\ dims op' = dims op /\ dimsd op' = dimsd op
    /\ MatrixMult.shape op' = MatrixMult.shape op
    /\ dtype op' = dtype op /\ log' = log.
Proof.
  intros M M' od0 dt0 op op' log log' Hsh Hdt He Hi Hi' Hfit.
  assert (Hc : iscomplexobj M' = iscomplexobj M)
    by (unfold iscomplexobj; now rewrite Hdt).
  pose proof Hi as Hinv. pose proof Hi' as Hinv'.
  apply matrix_init_inv in Hinv, Hinv'.
  destruct Hinv as (HA & _ & Hd & Hl & Hf).
  destruct Hinv' as (HA' & _ & Hd' & Hl' & Hf').
  rewrite Hc, <- Hdt, <- Hd in Hd'. rewrite Hc, <- Hdt, <- Hl in Hl'.
  rewrite <- Hsh in Hf'.
  assert (Hattr : dims op' = dims op /\ dimsd op' = dimsd op
                  /\ MatrixMult.shape op' = MatrixMult.shape op
                  /\ trailing op' = trailing op).
  { unfold trailing. destruct od0 as [v|].
    - cbv zeta in Hf, Hf'.
      destruct Hf as (_ & -> & -> & -> & _ & _ & -> & _).
      destruct Hf' as (_ & -> & -> & -> & _ & _ & -> & _). auto.
    - destruct Hf as (_ & -> & -> & -> & -> & _).
      destruct Hf' as (_ & -> & -> & -> & -> & _). auto. }
  destruct Hattr as (Hds & Hdsd & Hshape & Htr).
  assert (Hfit' : fits_int64 (prod (trailing op'))) by (now rewrite Htr).
  split; [|split; [|split; [|auto 10]]].
  - intros x Hx.
    erewrite (@matvec_init _ _ _ _ _ _ op), (@matvec_init _ _ _ _ _ _ op')
      by (eassumption || congruence).
    rewrite Htr. f_equal. symmetry. now apply matmul_trailing_ext.
  - intros Hcx y Hy.
    erewrite (@rmatvec_by_matrix _ _ _ op), (@rmatvec_by_matrix _ _ _ op')
      by (eassumption || congruence).
    rewrite Htr. f_equal. symmetry. unfold rmatvec_matrix.
    rewrite HA, HA', Hcx. apply matmul_trailing_ext.
    + now rewrite !mshape_conj_transpose, Hsh.
    + intros k i Hk Hi0. rewrite mshape_conj_transpose in Hk, Hi0.
      cbn [fst snd] in Hk, Hi0.
      rewrite !entry_conj_transpose, He by assumption. reflexivity.
  - intros Hlil Hlil'.
    destruct (complex_attr_of_init _ _ _ Hi)
      as [E|(_ & dt & r & c & coo & E)]; [|now apply Hlil in E].
    destruct (complex_attr_of_init _ _ _ Hi')
      as [E'|(_ & dt & r & c & coo & E')]; [|now apply Hlil' in E'].
    congruence.
Qed.

End WithScalar.


(** ** The properties at concrete operators *)

Lemma adjoint_is_a_MatrixMult_witness :
  (exists op' : t GaussZ,
      (exists log,
          __init__ (mconj (T A_c32)) None float64 = Ok (op', log))
      /\ _matvec op' [(1, 1); (2, 0); (0, -1)]%Z = Ok [(5, -1); (4, -4)]%Z)
  /\ (exists op' : t GaussZ,
         (exists log, __init__ (T L_c32) None float64 = Ok (op', log))
         /\ _matvec op' [(1, 1); (2, 0); (0, -1)]%Z
            = Ok [(3, 1); (2, 0)]%Z).
Proof.
  split.
  - destruct (__init__ A_c32 None float64) as [[op log]|] eqn:Hi;
      [|discriminate].
    destruct (@adjoint_is_a_MatrixMult GaussZ _ _ A_c32 None float64
                op log Hi) as (op' & Hi' & _ & _ & _ & _ & _ & Hm & _).
    exists op'. split.
    + exists log. injection Hi as <- _. exact Hi'.
    + rewrite Hm. injection Hi as <- _. reflexivity.
  - destruct (__init__ L_c32 None float64) as [[op log]|] eqn:Hi;
      [|discriminate].
    destruct (@adjoint_is_a_MatrixMult GaussZ _ _ L_c32 None float64
                op log Hi) as (op' & Hi' & _ & _ & _ & _ & _ & Hm & _).
    exists op'. split.
    + exists log. injection Hi as <- _. exact Hi'.
    + rewrite Hm. injection Hi as <- _. reflexivity.
Defined.

Lemma forward_is_linear_witness :
  exists v v' : list Z,
    (m <- __init__ A_1234 (Some (ListLike [2])) float64 ;;
     _matvec (fst m) [1; 0; 2; 1]%Z) = Ok v
    /\ (m <- __init__ A_1234 (Some (ListLike [2])) float64 ;;
        _matvec (fst m) [0; 1; 1; 1]%Z) = Ok v'
    /\ (m <- __init__ A_1234 (Some (ListLike [2])) float64 ;;
        _matvec (fst m) (vadd [1; 0; 2; 1]%Z [0; 1; 1; 1]%Z))
       = Ok (vadd v v')
    /\ (m <- __init__ A_1234 (Some (ListLike [2])) float64 ;;
        _matvec (fst m) (vscale 3%Z [1; 0; 2; 1]%Z)) = Ok (vscale 3%Z v).
Proof.
  destruct (__init__ A_1234 (Some (ListLike [2])) float64)
    as [[op log]|] eqn:Hi; [|discriminate].
  destruct (@forward_is_linear Z _ _ A_1234 (Some (ListLike [2])) float64
              op log 3%Z [1; 0; 2; 1]%Z [0; 1; 1; 1]%Z Hi)
    as (v & v' & H1 & H2 & H3 & H4).
  - injection Hi as <- _. unfold fits_int64, int64_max. cbn. lia.
  - injection Hi as <- _. reflexivity.
  - injection Hi as <- _. reflexivity.
  - exists v, v'. cbn [bind fst]. auto.
Defined.

Lemma adjoint_is_linear_witness :
  exists u u' : list GaussZ,
    (m <- __init__ A_c32 None float64 ;;
     _rmatvec (fst m) [(1, 1); (2, 0); (0, -1)]%Z) = Ok u
    /\ (m <- __init__ A_c32 None float64 ;;
        _rmatvec (fst m) [(0, 1); (1, 0); (1, 1)]%Z) = Ok u'
    /\ (m <- __init__ A_c32 None float64 ;;
        _rmatvec (fst m) (vadd [(1, 1); (2, 0); (0, -1)]%Z
                               [(0, 1); (1, 0); (1, 1)]%Z))
       = Ok (vadd u u')
    /\ (m <- __init__ A_c32 None float64 ;;
        _rmatvec (fst m) (vscale (0, 1)%Z [(1, 1); (2, 0); (0, -1)]%Z))
       = Ok (vscale (0, 1)%Z u).
Proof.
  destruct (__init__ A_c32 None float64) as [[op log]|] eqn:Hi;
    [|discriminate].
  destruct (@adjoint_is_linear GaussZ _ _ A_c32 None float64
              op log (0, 1)%Z [(1, 1); (2, 0); (0, -1)]%Z
              [(0, 1); (1, 0); (1, 1)]%Z Hi)
    as (u & u' & H1 & H2 & H3 & H4).
  - injection Hi as <- _. unfold fits_int64, int64_max. cbn. lia.
  - injection Hi as <- _. reflexivity.
  - injection Hi as <- _. reflexivity.
  - exists u, u'. cbn [bind fst]. auto.
Defined.

Lemma products_accept_exactly_the_operator_sizes_witness :
  (exists v : list Z,
      (m <- __init__ A_1234 (Some (ListLike [2; 1])) float64 ;;
       _matvec (fst m) [1; 10; 1; 100]%Z) = Ok v)
  /\ ~ (exists v : list Z,
           (m <- __init__ A_1234 (Some (ListLike [2; 1])) float64 ;;
            _matvec (fst m) [1; 2; 3]%Z) = Ok v).
Proof.
  destruct (__init__ A_1234 (Some (ListLike [2; 1])) float64)
    as [[op log]|] eqn:Hi; [|discriminate].
  destruct (@products_accept_exactly_the_operator_sizes Z _ _ A_1234
              (Some (ListLike [2; 1])) float64 op log Hi) as [Hm _].
  - injection Hi as <- _. unfold fits_int64, int64_max. cbn. lia.
  - cbn [bind fst]. split.
    + apply Hm. injection Hi as <- _. reflexivity.
    + intros Hex. apply Hm in Hex. injection Hi as <- _.
      discriminate Hex.
Defined.

Lemma shape_is_output_size_by_input_size_witness :
  exists (op : t Z) (log : list string) (v : list Z),
    __init__ A_1234 (Some (ListLike [2; 1])) float64 = Ok (op, log)
    /\ _matvec op [1; 10; 1; 100]%Z = Ok v
    /\ MatrixMult.shape op = (Z.of_nat (length v), 4%Z).
Proof.
  destruct (__init__ A_1234 (Some (ListLike [2; 1])) float64)
    as [[op log]|] eqn:Hi; [|discriminate].
  destruct (_matvec op [1; 10; 1; 100]%Z) as [v|e] eqn:Hv;
    [|injection Hi as <- _; discriminate Hv].
  destruct (@shape_is_output_size_by_input_size Z _ _ A_1234
              (Some (ListLike [2; 1])) float64 op log Hi) as [Hs _].
  - injection Hi as <- _. unfold fits_int64, int64_max. cbn. lia.
  - injection Hi as <- _. unfold fits_int64, int64_max. cbn. lia.
  - injection Hi as <- _. unfold fits_int64, int64_max. cbn. lia.
  - exists op, log, v. split; [reflexivity|]. split; [exact Hv|].
    apply (Hs _ _ Hv).
Defined.

Lemma products_only_raise_ValueError_witness :
  exists msg,
    (m <- __init__ A_1234 None float64 ;; _matvec (fst m) [1; 2; 3]%Z)
    = Raise (ValueError msg).
Proof.
  destruct (__init__ A_1234 None float64) as [[op log]|] eqn:Hi;
    [|discriminate].
  cbn [bind fst].
  destruct (_matvec op [1; 2; 3]%Z) as [v|e] eqn:He;
    [injection Hi as <- _; discriminate He|].
  destruct (@products_only_raise_ValueError Z _ _ A_1234 None float64 op log
              [1; 2; 3]%Z e Hi (or_introl He)) as (msg & ->).
  exists msg. reflexivity.
Defined.

Lemma otherdims_matter_through_their_product_witness :
  (m <- __init__ A_1234 (Some (ListLike [])) float64 ;;
   _matvec (fst m) [1; 1]%Z)
  = (m <- __init__ A_1234 None float64 ;; _matvec (fst m) [1; 1]%Z)
  /\ (m <- __init__ A_1234 (Some (ListLike [3; 2])) float64 ;;
      _matvec (fst m) (map Z.of_nat (seq 0 12)))
     = (m <- __init__ A_1234 (Some (Value 6)) float64 ;;
        _matvec (fst m) (map Z.of_nat (seq 0 12))).
Proof.
  split.
  - destruct (__init__ A_1234 None float64) as [[op log]|] eqn:Hi;
      [|discriminate].
    destruct (__init__ A_1234 (Some (ListLike [])) float64)
      as [[op' log']|] eqn:Hi'; [|discriminate].
    destruct (@otherdims_matter_through_their_product Z _ _ A_1234 None
                (Some (ListLike [])) float64 op op' log log' Hi Hi')
      as (Hm & _).
    + injection Hi as <- _. injection Hi' as <- _. reflexivity.
    + injection Hi as <- _. unfold fits_int64, int64_max. cbn. lia.
    + cbn [bind fst]. apply Hm. injection Hi as <- _. reflexivity.
  - destruct (__init__ A_1234 (Some (Value 6)) float64)
      as [[op log]|] eqn:Hi; [|discriminate].
    destruct (__init__ A_1234 (Some (ListLike [3; 2])) float64)
      as [[op' log']|] eqn:Hi'; [|discriminate].
    destruct (@otherdims_matter_through_their_product Z _ _ A_1234
                (Some (Value 6)) (Some (ListLike [3; 2])) float64
                op op' log log' Hi Hi')
      as (Hm & _).
    + injection Hi as <- _. injection Hi' as <- _. reflexivity.
    + injection Hi as <- _. unfold fits_int64, int64_max. cbn. lia.
    + cbn [bind fst]. apply Hm. injection Hi as <- _. reflexivity.
Defined.

Lemma same_entries_same_operator_witness :
  (m <- __init__ S_1234 None float64 ;; _matvec (fst m) [1; 1]%Z)
  = (m <- __init__ A_1234 None float64 ;; _matvec (fst m) [1; 1]%Z)
  /\ (m <- __init__ S_1234 None float64 ;; _rmatvec (fst m) [1; 1]%Z)
     = (m <- __init__ A_1234 None float64 ;; _rmatvec (fst m) [1; 1]%Z).
Proof.
  destruct (__init__ A_1234 None float64) as [[op log]|] eqn:Hi;
    [|discriminate].
  destruct (__init__ S_1234 None float64) as [[op' log']|] eqn:Hi';
    [|discriminate].
  destruct (@same_entries_same_operator Z _ _ A_1234 S_1234 None float64
              op op' log log' eq_refl eq_refl) as (Hm & Hr & Hc & _).
  - intros [|[|i]] [|[|k]] Hi0 Hk; cbn in Hi0, Hk; try lia; reflexivity.
  - exact Hi.
  - exact Hi'.
  - injection Hi as <- _. unfold fits_int64, int64_max. cbn. lia.
  - cbn [bind fst]. split.
    + apply Hm. injection Hi as <- _. reflexivity.
    + apply Hr.
      * apply Hc; intros dt r c coo E; discriminate E.
      * injection Hi as <- _. reflexivity.
Defined.

End MatrixMultExtra.

(* ================================================================== *)
(** * Worked examples *)

Module Examples.
Import Numpy.

(** [Transpose((2, 3), (1, 0))] on [arange(6)]. *)
Example transpose_2x3 :
  (op <- Transpose.__init__ (ListLike [2; 3]) [1; 0]%Z float64 "T" ;;
   Transpose._matvec 0 op [0; 1; 2; 3; 4; 5]) = Ok [0; 3; 1; 4; 2; 5].
Proof. reflexivity. Qed.

(** Negative axes are normalised: [(1, -1, 0)] over three dimensions is
    [(1, 2, 0)], and the adjoint undoes the forward. *)
Example transpose_negative_axis :
  Transpose.__init__ (ListLike [2; 3; 4]) [1; -1; 0]%Z float64 "T"
  = Ok Transpose.op_234
  /\ Transpose._matvec 0 Transpose.op_234 (seq 0 24)
     = Ok [0; 12; 1; 13; 2; 14; 3; 15; 4; 16; 5; 17;
           6; 18; 7; 19; 8; 20; 9; 21; 10; 22; 11; 23]
  /\ (y <- Transpose._matvec 0 Transpose.op_234 (seq 0 24) ;;
      Transpose._rmatvec 0 Transpose.op_234 y) = Ok (seq 0 24).
Proof. repeat split. Qed.

(** A scalar [dims] is a one-dimensional shape. *)
Example transpose_scalar_dims :
  (op <- Transpose.__init__ (Value 3) [-1]%Z float64 "T" ;;
   Transpose._matvec 0 op [7; 8; 9]) = Ok [7; 8; 9].
Proof. reflexivity. Qed.

(** An input of the wrong length is refused by [reshape]. *)
Example transpose_wrong_length :
  Transpose._matvec 0 Transpose.op_234 [1; 2; 3]
  = Raise (ValueError "cannot reshape array").
Proof. reflexivity. Qed.

(** The operator accepted with repeated axes cannot be applied. *)
Example transpose_repeated_axes_apply :
  (op <- Transpose.__init__ (ListLike [5]) [0; 0; 0]%Z float64 "T" ;;
   Transpose._matvec 0 op [1; 2; 3; 4; 5])
  = Raise (ValueError "axes don't match array").
Proof. reflexivity. Qed.

(** A negative entry of a shape is inferred by [reshape]. *)
Example reshape_inferred :
  (a <- np_reshape_int [1; 2; 3; 4; 5; 6] [-1; 3]%Z ;; Ok (shape a))
  = Ok [2; 3].
Proof. reflexivity. Qed.

(** [MatrixMult] over a sparse COO matrix with the entries of
    [[[1, 2], [3, 4]]], the entry 4 stored in two parts. *)
Example matrixmult_sparse :
  let A := MatrixMult.Sparse MatrixMult.COO int64 2 2
             [(0, 0, 1%Z); (0, 1, 2%Z); (1, 0, 3%Z);
              (1, 1, 1%Z); (1, 1, 3%Z)] in
  (m <- MatrixMult.__init__ A None float64 ;;
   MatrixMult._matvec (fst m) [1; 1]%Z) = Ok [3; 7]%Z
  /\ (m <- MatrixMult.__init__ A None float64 ;;
      MatrixMult._rmatvec (fst m) [1; 1]%Z) = Ok [4; 6]%Z.
Proof. split; reflexivity. Qed.

(** [MatrixMult] with [otherdims = (2, 1)]: the matrix is applied to the
    two columns [[1, 1]] and [[10, 100]]. *)
Example matrixmult_otherdims :
  (m <- MatrixMult.__init__ MatrixMult.A_1234 (Some (ListLike [2; 1])) float64 ;;
   MatrixMult._matvec (fst m) [1; 10; 1; 100]%Z) = Ok [3; 210; 7; 430]%Z
  /\ (m <- MatrixMult.__init__ MatrixMult.A_1234 (Some (ListLike [2; 1]))
             float64 ;;
      Ok (MatrixMult.shape (fst m), MatrixMult.explicit (fst m)))
     = Ok ((4, 4)%Z, false).
Proof. split; reflexivity. Qed.

(** A complex matrix with a real dtype requested: the dtype is upcast, a
    warning is logged, and the adjoint conjugates. *)
Example matrixmult_complex :
  (m <- MatrixMult.__init__ MatrixMult.A_c32 None float64 ;;
   Ok (MatrixMult.dtype (fst m), snd m))
  = Ok (complex128,
        ["Matrix A is a complex object, dtype cast to complex128"])
  /\ (m <- MatrixMult.__init__ MatrixMult.A_c32 None float64 ;;
      MatrixMult._rmatvec (fst m) [(1, 1); (2, 0); (0, -1)]%Z)
     = Ok [(5, -1); (4, -4)]%Z.
Proof. split; reflexivity. Qed.

(** A DOK matrix has no [data] attribute: the construction raises,
    before [otherdims] is looked at. *)
Example matrixmult_dok :
  MatrixMult.__init__ MatrixMult.D_1234 None float64 = Raise AttributeError
  /\ MatrixMult.__init__ MatrixMult.D_1234 (Some (Value (2 ^ 64))) float64
     = Raise AttributeError.
Proof. split; reflexivity. Qed.

End Examples.
